(** * QCSuper: the pyusb modem connector and the input selection of [main]

    A shallow embedding of [src/inputs/usb_modem_pyusb.py]
    ([UsbModemPyusbConnector]: [__init__], [send_request], [read_loop]) and
    of the input selection of [src/main.py], with the properties of the
    transport and framing layer stated over it.

    Python objects become records, [bytes] a list of integers in 0..255,
    exceptions an explicit outcome type, and the I/O of the connector a
    trace of events.  The blocking endpoint read is driven by a script: the
    list of what the successive calls of [read_endpoint.read] produce. *)

From Stdlib Require Import ZArith Ascii String List Lia.
From stdpp Require Import base list strings.

Open Scope Z_scope.

(** ** Python values *)

(** A [bytes] object: every element is in [range(256)]. *)
Definition bytes := list Z.

Definition is_byte (b : Z) : Prop := 0 <= b < 256.

(** The exception classes (all of them subclasses of [Exception]) that the
    calls made by the connector raise.  [USBTimeoutError] is pyusb's
    subclass of [USBError].  [SystemExit], which [exit()] raises, is not an
    [Exception]: no [except Exception] clause catches it, and it is a
    separate outcome below. *)
Inductive exc : Type :=
  | USBError
  | USBTimeoutError
  | AssertionError
  | InvalidFrameError
  | ValueError
  | AttributeError
  | NotImplementedError.

(** [isinstance(e, USBError)], what [except USBError] tests. *)
Definition isinstance_USBError (e : exc) : bool :=
  match e with
  | USBError | USBTimeoutError => true
  | _ => false
  end.

(** How a call into pyusb or into the framing mixin ends: it gives a value
    or throws an exception. *)
Inductive answer (A : Type) : Type :=
  | Gives (a : A)
  | Throws (e : exc).

Arguments Gives {A} a.
Arguments Throws {A} e.

Definition answer_map {A B : Type} (f : A -> B) (r : answer A) : answer B :=
  match r with
  | Gives a => Gives (f a)
  | Throws e => Throws e
  end.

(** How a method of the connector, or [main], ends: it returns, it raises
    an exception, or it leaves through [exit(arg)]. *)
Inductive outcome (A : Type) : Type :=
  | Returned (a : A)
  | Raised (e : exc)
  | Exited (arg : option string).

Arguments Returned {A} a.
Arguments Raised {A} e.
Arguments Exited {A} arg.

Definition outcome_map {A B : Type} (f : A -> B) (o : outcome A) : outcome B :=
  match o with
  | Returned a => Returned (f a)
  | Raised e => Raised e
  | Exited arg => Exited arg
  end.

(** Truthiness of an [Optional[str]]: [None] and [''] are false. *)
Definition truthy (o : option string) : bool :=
  match o with
  | Some s => bool_decide (s <> EmptyString)
  | None => false
  end.

(** [s.endswith(suffix)] on bytes. *)
Definition endswith (s suffix : bytes) : bool :=
  bool_decide (suffix `suffix_of` s).

(** ** The framing mixin

    [HdlcMixin] ([src/inputs/_hdlc_mixin.py]) is not among the sources at
    hand.  The connector uses three of its members, which are taken as the
    methods of an interface: the trailer byte (the single byte of
    [TRAILER_CHAR]), [hdlc_encapsulate] and [hdlc_decapsulate], the latter
    with its keyword arguments [payload] and [raise_on_invalid_frame]. *)
Class HdlcMixin : Type := {
  trailer : Z;
  hdlc_encapsulate : bytes -> bytes;
  hdlc_decapsulate : bytes -> bool -> answer bytes
}.

Definition TRAILER_CHAR `{HdlcMixin} : bytes := [trailer].

(** The contract of the lenient mode: with [raise_on_invalid_frame] false,
    [hdlc_decapsulate] does not raise [InvalidFrameError]. *)
Definition lenient_never_invalid (H : HdlcMixin) : Prop :=
  forall payload : bytes, hdlc_decapsulate payload false <> Throws InvalidFrameError.

Module Framer.

(** A decoded packet: one type byte and the payload after it. *)
Record DecodedPacket : Type := {
  type_id : Z;
  payload : bytes
}.

Definition packet_of (unframed : bytes) : option DecodedPacket :=
  match unframed with
  | [] => None
  | t :: p => Some {| type_id := t; payload := p |}
  end.

Section Codec.

(** The trailer byte, the escape byte and the exclusive-or mask are
    fixed values that the specification leaves open. *)
Variables TRAILER ESCAPE MASK : Z.

(** Modelled from the spec: the escaping of [Framer.encode] (the body of
    [HdlcMixin.hdlc_encapsulate], which is missing).  Each trailer or
    escape byte is replaced by the escape byte followed by the original
    value exclusive-ORed with the mask. *)
Definition escape (b : Z) : bytes :=
  if bool_decide (b = TRAILER \/ b = ESCAPE)
  then [ESCAPE; Z.lxor b MASK]
  else [b].

(** Modelled from the spec: [HdlcMixin.hdlc_encapsulate], which is
    missing: escape every byte, then append the unescaped trailer. *)
Definition encapsulate (message : bytes) : bytes :=
  concat (map escape message) ++ [TRAILER].

(** Modelled from the spec: the unescaping of [Framer.decode], missing
    with [HdlcMixin.hdlc_decapsulate].  The result holds the bytes that
    could be unescaped and whether every escape sequence was well
    formed (an escape byte is followed by the byte it escapes). *)
Fixpoint unescape (body : bytes) : bytes * bool :=
  match body with
  | [] => ([], true)
  | b :: rest =>
      if bool_decide (b = ESCAPE) then
        match rest with
        | [] => ([], false)
        | x :: rest' =>
            let (u, ok) := unescape rest' in (Z.lxor x MASK :: u, ok)
        end
      else
        let (u, ok) := unescape rest in (b :: u, ok)
  end.

(** Modelled from the spec: [HdlcMixin.hdlc_decapsulate], which is
    missing.  Escaping is reversed over the bytes preceding the final
    trailer; the checks (well-formed escape sequences, non-empty
    result) are always made and reported only in strict mode. *)
Definition decapsulate (raw_frame : bytes) (strict : bool) : answer bytes :=
  let (unframed, well_formed) := unescape (removelast raw_frame) in
  let valid := well_formed && bool_decide (unframed <> []) in
  if strict && negb valid then Throws InvalidFrameError
  else Gives unframed.

(** Modelled from the spec: [Framer.encode(type_id, payload)]. *)
Definition encode (t : Z) (p : bytes) : bytes := encapsulate (t :: p).

(** Modelled from the spec: [Framer.decode(raw_frame, strict)], which
    splits the first byte as the type and the remainder as the payload;
    [None] when a lenient decode leaves no byte to split. *)
Definition decode (raw_frame : bytes) (strict : bool) : answer (option DecodedPacket) :=
  answer_map packet_of (decapsulate raw_frame strict).

Definition mixin : HdlcMixin := {|
  trailer := TRAILER;
  hdlc_encapsulate := encapsulate;
  hdlc_decapsulate := decapsulate
|}.

End Codec.

End Framer.

(** The framing with the customary HDLC values, for concrete runs. *)
Definition hdlc_7e : HdlcMixin := Framer.mixin 126 125 32.

(** ** The resolved device interface

    [PyusbDevInterface] ([src/inputs/usb_modem_pyusb_devfinder.py]) is not
    among the sources at hand; the record holds the attributes that the
    connector and [main] read.  Devices and endpoints are handles; an
    attribute that is [None] is [None] here. *)

(** Modelled from the spec: the enumeration of not-found reasons of
    [PyusbDevNotFoundReason], which is missing. *)
Inductive PyusbDevNotFoundReason : Type :=
  | NO_MATCHING_INTERFACE
  | AMBIGUOUS
  | KERNEL_DRIVER_ACTIVE_NO_CHARDEV
  | EXPLICIT_TARGET_ABSENT.

Record PyusbDevInterface : Type := {
  device : option nat;
  interface_index : option Z;
  read_endpoint : option nat;
  write_endpoint : option nat;
  not_found_reason : option PyusbDevNotFoundReason;
  chardev_if_mounted : option string
}.

(** What pyusb answers: the kernel-driver query of a device for an
    interface index, and the write of a bytes object to an endpoint. *)
Class Pyusb : Type := {
  is_kernel_driver_active : nat -> Z -> answer bool;
  endpoint_write : nat -> bytes -> answer Z
}.

(** ** Events *)

Inductive event : Type :=
  | EvWrite (raw_payload : bytes)
  | EvPrint (message : string)
  | EvError (message : string)
  | EvDecapsulate (payload : bytes) (raise_on_invalid_frame : bool)
  | EvDispatch (unframed_message : bytes)
  | EvDispose.

Definition is_dispatch (ev : event) : bool :=
  match ev with
  | EvDispatch _ => true
  | _ => false
  end.

(** The values of [raise_on_invalid_frame] of the decapsulations of a
    trace, in order. *)
Fixpoint decapsulate_flags (tr : list event) : list bool :=
  match tr with
  | [] => []
  | EvDecapsulate _ strict :: tr' => strict :: decapsulate_flags tr'
  | _ :: tr' => decapsulate_flags tr'
  end.


(** ** [UsbModemPyusbConnector] *)

Record UsbModemPyusbConnector : Type := {
  dev_intf : PyusbDevInterface;
  received_first_packet : bool
}.

Definition set_received_first_packet (v : bool) (self : UsbModemPyusbConnector)
  : UsbModemPyusbConnector :=
  {| dev_intf := dev_intf self; received_first_packet := v |}.

Definition dq : string := String (ascii_of_nat 34) EmptyString.

Definition kernel_driver_message : string :=
  ("[!] The USB modem device seems to be taken by a kernel driver, such as "
   ++ dq ++ "usbserial" ++ dq ++ " "
   ++ "or " ++ dq ++ "hso" ++ dq
   ++ ". Please pass directly a device name using an option like "
   ++ dq ++ "--usb-modem /dev/ttyUSB2" ++ dq ++ " "
   ++ "or " ++ dq ++ "/dev/ttyHS0" ++ dq ++ " (on Linux) or "
   ++ dq ++ "COM0" ++ dq
   ++ " (on Windows) if it applies, or unmount the corresponding "
   ++ "driver.")%string.

Definition write_failure_message : string :=
  ("[!] Can't write to the USB device. Maybe that you need "
   ++ "root/administrator privileges, or that the device was unplugged?")%string.

Definition modem_unavailable_message : string :=
  "The modem seems to be unavailable."%string.

Section Connector.

Context `{Mixin : HdlcMixin} `{Usb : Pyusb}.

(** The expression of line 25,
    [self.dev_intf.device.is_kernel_driver_active(self.dev_intf.interface.index)]:
    an attribute that is [None] makes it raise [AttributeError]. *)
Definition kernel_driver_query (d : PyusbDevInterface) : answer bool :=
  match device d, interface_index d with
  | Some dev, Some index => is_kernel_driver_active dev index
  | _, _ => Throws AttributeError
  end.

(** [UsbModemPyusbConnector.__init__(self, dev_intf)], lines 16-39.  The
    [try] has [except Exception: pass], and its [else] exits with the
    message when the status is true.  [super().__init__()] is
    [BaseInput]'s and sets up attributes that the model does not carry. *)
Definition init (d : PyusbDevInterface) : outcome UsbModemPyusbConnector :=
  let self := {| dev_intf := d; received_first_packet := false |} in
  match kernel_driver_query d with
  | Throws _ => Returned self
  | Gives status =>
      if status then Exited (Some kernel_driver_message)
      else Returned self
  end.

(** [send_request(self, packet_type, packet_payload)], lines 47-56.
    [bytes([packet_type])] raises [ValueError] outside [range(256)];
    [self.dev_intf.write_endpoint.write] raises [AttributeError] on a
    missing endpoint; only [USBError] is caught.  The method assigns no
    attribute of [self]: the connector comes back as it went in. *)
Definition send_request (self : UsbModemPyusbConnector)
    (packet_type : Z) (packet_payload : bytes)
  : list event * UsbModemPyusbConnector * outcome unit :=
  if bool_decide (0 <= packet_type < 256) then
    let raw_payload := hdlc_encapsulate (packet_type :: packet_payload) in
    match write_endpoint (dev_intf self) with
    | None => ([], self, Raised AttributeError)
    | Some ep =>
        match endpoint_write ep raw_payload with
        | Gives _ => ([EvWrite raw_payload], self, Returned tt)
        | Throws e =>
            if isinstance_USBError e
            then ([EvWrite raw_payload; EvPrint write_failure_message], self, Returned tt)
            else ([EvWrite raw_payload], self, Raised e)
        end
    end
  else ([], self, Raised ValueError).

(** *** The read loop *)

(** The script of the reads: what the successive calls of
    [self.dev_intf.read_endpoint.read(...)] produce. *)
Definition script : Type := list (answer bytes).

(** How the inner loop (lines 66-76) ends on a script of reads. *)
Inductive accumulated : Type :=
  | Framed (raw_payload : bytes) (rest : script)
  | ReadFailed
  | Awaiting (raw_payload : bytes).

(** Lines 66-76: [while not raw_payload.endswith(self.TRAILER_CHAR)].  A
    read that raises, or that returns an empty bytes object (the
    [assert] is inside the [try]), reaches [except Exception: exit()].
    [Awaiting]: the script is used up and the next read has not
    returned. *)
Fixpoint accumulate (raw_payload : bytes) (reads : script) : accumulated :=
  if endswith raw_payload TRAILER_CHAR then Framed raw_payload reads
  else
    match reads with
    | [] => Awaiting raw_payload
    | Throws _ :: _ => ReadFailed
    | Gives data_read :: reads' =>
        match data_read with
        | [] => ReadFailed
        | _ :: _ => accumulate (raw_payload ++ data_read) reads'
        end
    end.

(** A read that ends the session: it raises, or it returns no byte. *)
Definition fatal_read (r : answer bytes) : bool :=
  match r with
  | Throws _ => true
  | Gives [] => true
  | Gives (_ :: _) => false
  end.

(** How the loop stops. *)
Inductive halt : Type :=
  | SystemExit (arg : option string)
  | Propagates (e : exc)
  | BlockedInRead (raw_payload : bytes).

Inductive iteration : Type :=
  | Continue (tr : list event) (self' : UsbModemPyusbConnector) (rest : script)
  | Stop (tr : list event) (self' : UsbModemPyusbConnector) (how : halt).

(** One iteration of [while True] (lines 62-104).  The [finally] clause
    sets [received_first_packet] on every way out of the [try].
    [dispatch_received_diag_packet] is [BaseInput]'s and is missing: the
    call is an event, and it is taken to return. *)
Definition read_loop_body (self : UsbModemPyusbConnector) (reads : script)
  : iteration :=
  match accumulate [] reads with
  | Awaiting raw_payload => Stop [] self (BlockedInRead raw_payload)
  | ReadFailed => Stop [] self (SystemExit None)
  | Framed raw_payload rest =>
      if bool_decide (raw_payload = TRAILER_CHAR) then
        Stop [EvPrint modem_unavailable_message] self (SystemExit None)
      else
        let strict := negb (received_first_packet self) in
        let decapsulated := hdlc_decapsulate raw_payload strict in
        let self' := set_received_first_packet true self in
        match decapsulated with
        | Throws InvalidFrameError =>
            Continue [EvDecapsulate raw_payload strict] self' rest
        | Throws e =>
            Stop [EvDecapsulate raw_payload strict] self' (Propagates e)
        | Gives unframed_message =>
            Continue [EvDecapsulate raw_payload strict; EvDispatch unframed_message]
                     self' rest
        end
  end.

Definition events_of (it : iteration) : list event :=
  match it with
  | Continue tr _ _ | Stop tr _ _ => tr
  end.

Definition state_after (it : iteration) : UsbModemPyusbConnector :=
  match it with
  | Continue _ self' _ | Stop _ self' _ => self'
  end.

(** A run of the loop: its trace, the connector at the end, and how it
    stopped ([None]: the fuel ran out). *)
Record run : Type := {
  trace : list event;
  final : UsbModemPyusbConnector;
  halted : option halt
}.

Definition after (tr : list event) (r : run) : run :=
  {| trace := tr ++ trace r; final := final r; halted := halted r |}.

Fixpoint read_loop_fuel (fuel : nat) (self : UsbModemPyusbConnector)
    (reads : script) : run :=
  match fuel with
  | O => {| trace := []; final := self; halted := None |}
  | S fuel' =>
      match read_loop_body self reads with
      | Stop tr self' how => {| trace := tr; final := self'; halted := Some how |}
      | Continue tr self' rest => after tr (read_loop_fuel fuel' self' rest)
      end
  end.

(** [read_loop(self)], lines 58-104.  Every iteration consumes a read, so
    one more unit of fuel than there are reads is enough. *)
Definition read_loop (self : UsbModemPyusbConnector) (reads : script) : run :=
  read_loop_fuel (S (length reads)) self reads.

(** Modelled from the spec: [BaseInput.run], which is missing: the session
    runs the read loop. *)
Definition run_input (self : UsbModemPyusbConnector) (reads : script) : run :=
  read_loop self reads.

(** Lines 196-199 of [main]: [try: diag_input.run()] with
    [finally: diag_input.dispose()].  [BaseInput.dispose] is missing too and
    is an event here.  The [finally] clause is reached when the loop is
    left, not while a read blocks. *)
Definition run_session (self : UsbModemPyusbConnector) (reads : script) : run :=
  let r := run_input self reads in
  match halted r with
  | Some (SystemExit _) | Some (Propagates _) =>
      {| trace := trace r ++ [EvDispose]; final := final r; halted := halted r |}
  | Some (BlockedInRead _) | None => r
  end.

End Connector.

(** ** The input selection of [main] *)

(** The input-mode options of the parsed command line (lines 42-60).  A
    file option holds the name of the opened file. *)
Record Args : Type := {
  dlf_read : option string;
  adb_wsl2 : option string;
  adb : bool;
  usb_modem : option string;
  json_geo_read : option string
}.

(** Modelled from the spec: the kinds of device specifier of
    [UsbModemArgType], which is missing; [main] names [pyserial_dev]
    only. *)
Inductive UsbModemArgType : Type :=
  | pyserial_dev
  | pyusb_auto
  | pyusb_vid_pid
  | pyusb_bus_device.

(** The attributes of a [UsbModemArgParser] that [main] reads. *)
Record UsbModemArgParser : Type := {
  arg_type : option UsbModemArgType;
  pyserial_device : option string
}.

(** The input object that [main] ends up with. *)
Inductive diag_input : Type :=
  | DlfReader (file : string)
  | AdbWsl2Connector (adb_exe : string)
  | AdbConnector
  | UsbModemPyserialConnector (device_path : option string)
  | UsbModemPyusb (connector : UsbModemPyusbConnector)
  | JsonGeoReader (file : string).

(** What the collaborators of [main] that are missing answer: the file
    system, the [usb_modem] attribute of the two adb connectors once
    constructed, the parser of the [--usb-modem] argument and
    [PyusbDevInterface.from_arg]. *)
Class Host : Type := {
  resolve : string -> string;
  is_file : string -> bool;
  AdbWsl2Connector_usb_modem : string -> option PyusbDevInterface;
  AdbConnector_usb_modem : option PyusbDevInterface;
  parse_usb_modem : string -> UsbModemArgParser;
  from_arg : UsbModemArgParser -> PyusbDevInterface
}.

Definition adb_wsl2_message : string :=
  "--adb-wsl2 is not a valid path to Windows adb executable"%string.

Definition usb_modem_invalid_message : string :=
  ("You didn't pass a valid value for the --usb-modem "
   ++ "argument. Please check digit padding (if any) and see "
   ++ "--help for further details.")%string.

Definition not_found_message : string :=
  ("No Qualcomm Diag interface was found with the specified "
   ++ "criteria. Please be more specific.")%string.

Section Main.

Context `{Mixin : HdlcMixin} `{Usb : Pyusb} `{Sys : Host}.

(** The text shared by lines 101-104, 109-112 and 129-132:
    [if usb_modem.chardev_if_mounted:] the pyserial connector over that
    path, [else:] the pyusb connector over the interface. *)
Definition serial_or_pyusb (usb_modem : PyusbDevInterface) : outcome diag_input :=
  if truthy (chardev_if_mounted usb_modem) then
    Returned (UsbModemPyserialConnector (chardev_if_mounted usb_modem))
  else
    outcome_map UsbModemPyusb (init usb_modem).

(** Lines 99-104 and 107-112: [diag_input] is replaced when
    [diag_input.usb_modem and not diag_input.usb_modem.not_found_reason]. *)
Definition adb_or_modem (adb_input : diag_input) (usb_modem : option PyusbDevInterface)
  : outcome diag_input :=
  match usb_modem with
  | Some um =>
      match not_found_reason um with
      | None => serial_or_pyusb um
      | Some _ => Returned adb_input
      end
  | None => Returned adb_input
  end.

(** Lines 91-137 of [main]: the [if]/[elif] chain that builds
    [diag_input].  [Path.resolve] and the constructors of the inputs other
    than [UsbModemPyusbConnector] are missing and are taken to return. *)
Definition select_input (args : Args) : list event * outcome diag_input :=
  match dlf_read args with
  | Some file => ([], Returned (DlfReader file))
  | None =>
      if truthy (adb_wsl2 args) then
        let win_adb_path := resolve (default EmptyString (adb_wsl2 args)) in
        if negb (is_file win_adb_path) then ([EvError adb_wsl2_message], Exited None)
        else ([], adb_or_modem (AdbWsl2Connector win_adb_path)
                               (AdbWsl2Connector_usb_modem win_adb_path))
      else if adb args then
        ([], adb_or_modem AdbConnector AdbConnector_usb_modem)
      else if truthy (usb_modem args) then
        let usb_arg := parse_usb_modem (default EmptyString (usb_modem args)) in
        match arg_type usb_arg with
        | None => ([EvError usb_modem_invalid_message], Exited None)
        | Some pyserial_dev =>
            ([], Returned (UsbModemPyserialConnector (pyserial_device usb_arg)))
        | Some _ =>
            let d := from_arg usb_arg in
            match not_found_reason d with
            | Some _ => ([EvError not_found_message], Exited None)
            | None => ([], serial_or_pyusb d)
            end
        end
      else
        match json_geo_read args with
        | Some file => ([], Returned (JsonGeoReader file))
        | None => ([], Raised NotImplementedError)
        end
  end.

(** The three places where [main] holds a resolved interface: the
    [usb_modem] attribute of the adb connector over WSL2 (line 100), that
    of the adb connector (line 108), and the result of
    [PyusbDevInterface.from_arg] (line 123). *)
Inductive resolves (args : Args) (d : PyusbDevInterface) : Prop :=
  | resolves_adb_wsl2 :
      dlf_read args = None ->
      truthy (adb_wsl2 args) = true ->
      is_file (resolve (default EmptyString (adb_wsl2 args))) = true ->
      AdbWsl2Connector_usb_modem (resolve (default EmptyString (adb_wsl2 args))) = Some d ->
      resolves args d
  | resolves_adb :
      dlf_read args = None ->
      truthy (adb_wsl2 args) = false ->
      adb args = true ->
      AdbConnector_usb_modem = Some d ->
      resolves args d
  | resolves_from_arg (t : UsbModemArgType) :
      dlf_read args = None ->
      truthy (adb_wsl2 args) = false ->
      adb args = false ->
      truthy (usb_modem args) = true ->
      arg_type (parse_usb_modem (default EmptyString (usb_modem args))) = Some t ->
      t <> pyserial_dev ->
      d = from_arg (parse_usb_modem (default EmptyString (usb_modem args))) ->
      resolves args d.

End Main.

(** ** Concrete collaborators, for the runs on explicit inputs *)

(** [needle in s] on strings. *)
Fixpoint contains (needle s : string) : bool :=
  String.prefix needle s ||
  match s with
  | EmptyString => false
  | String _ s' => contains needle s'
  end.

(** A pyusb whose kernel-driver query answers [status] and whose endpoint
    write ends as [w]. *)
Definition pyusb_of (status : answer bool) (w : answer Z) : Pyusb := {|
  is_kernel_driver_active := fun _ _ => status;
  endpoint_write := fun _ _ => w
|}.

(** An interface of device 1 with endpoints 129 (in) and 1 (out). *)
Definition modem (chardev : option string) : PyusbDevInterface := {|
  device := Some 1%nat;
  interface_index := Some 0;
  read_endpoint := Some 129%nat;
  write_endpoint := Some 1%nat;
  not_found_reason := None;
  chardev_if_mounted := chardev
|}.

Definition fresh : UsbModemPyusbConnector :=
  {| dev_intf := modem None; received_first_packet := false |}.

(** A host where [--usb-modem] parses as a vendor:product pair and resolves
    to [d], and where the adb connectors see [d] too. *)
Definition host_of (d : PyusbDevInterface) : Host := {|
  resolve := id;
  is_file := fun _ => true;
  AdbWsl2Connector_usb_modem := fun _ => Some d;
  AdbConnector_usb_modem := Some d;
  parse_usb_modem := fun _ => {| arg_type := Some pyusb_vid_pid; pyserial_device := None |};
  from_arg := fun _ => d
|}.

Definition args_usb_modem (spec : string) : Args := {|
  dlf_read := None;
  adb_wsl2 := None;
  adb := false;
  usb_modem := Some spec;
  json_geo_read := None
|}.

(** ** Views of a trace *)

(** The buffers handed to [hdlc_decapsulate] in a trace, in order. *)
Fixpoint decapsulated (tr : list event) : list bytes :=
  match tr with
  | [] => []
  | EvDecapsulate raw_payload _ :: tr' => raw_payload :: decapsulated tr'
  | _ :: tr' => decapsulated tr'
  end.

(** The messages dispatched in a trace, in order. *)
Fixpoint dispatched (tr : list event) : list bytes :=
  match tr with
  | [] => []
  | EvDispatch unframed_message :: tr' => unframed_message :: dispatched tr'
  | _ :: tr' => dispatched tr'
  end.

(** The writes to the endpoint in a trace, in order. *)
Fixpoint written (tr : list event) : list bytes :=
  match tr with
  | [] => []
  | EvWrite raw_payload :: tr' => raw_payload :: written tr'
  | _ :: tr' => written tr'
  end.

(** What the decapsulations of a trace gave, in order: nothing for one
    that threw. *)
Fixpoint given `{HdlcMixin} (tr : list event) : list bytes :=
  match tr with
  | [] => []
  | EvDecapsulate raw_payload strict :: tr' =>
      match hdlc_decapsulate raw_payload strict with
      | Gives unframed_message => unframed_message :: given tr'
      | Throws _ => given tr'
      end
  | _ :: tr' => given tr'
  end.

(** The buffers of a trace whose decapsulation threw [InvalidFrameError]. *)
Fixpoint skipped `{HdlcMixin} (tr : list event) : list bytes :=
  match tr with
  | [] => []
  | EvDecapsulate raw_payload strict :: tr' =>
      match hdlc_decapsulate raw_payload strict with
      | Throws InvalidFrameError => raw_payload :: skipped tr'
      | _ => skipped tr'
      end
  | _ :: tr' => skipped tr'
  end.

(** ** The modules of [main] *)

(** The module and option flags of the parsed command line (lines 34-36
    and 64-83).  A file option holds the name of the opened file. *)
Record ModuleArgs : Type := {
  cli : bool;
  efs_shell : bool;
  info : bool;
  pcap_dump : option string;
  wireshark_live : bool;
  memory_dump : option string;
  dlf_dump : option string;
  json_geo_dump : option string;
  decoded_sibs_dump : bool;
  reassemble_sibs : bool;
  decrypt_nas : bool;
  include_ip_traffic : bool;
  start : string;
  stop : string
}.

(** The module objects that [main] constructs, with the arguments it
    passes besides [diag_input].  The classes are missing; their
    constructors are taken to return. *)
Inductive module : Type :=
  | MemoryDumper (output_dir : string) (memory_start memory_stop : Z)
  | PcapDumper (file : string) (sibs nas ip : bool)
  | WiresharkLive (sibs nas ip : bool)
  | JsonGeoDumper (file : string)
  | DecodedSibsDumper
  | InfoRetriever
  | DlfDumper (file : string)
  | CommandLineInterface
  | EfsShell.

(** The built-ins that [main] calls on its arguments: [int(s, 16)]
    ([None]: it raises [ValueError]), [os.path.expanduser], and the text
    that [parser.print_usage()] prints. *)
Class Builtins : Type := {
  int16 : string -> option Z;
  expanduser : string -> string;
  usage : string
}.

Definition cli_message : string :=
  "You can not both specify the use of CLI and a module"%string.

Definition efs_shell_message : string :=
  "You can not both specify the use of EFS shell and a module"%string.

Definition no_module_message : string :=
  "You must specify either a module or --cli"%string.

(** Truthiness of a list: [[]] is false. *)
Definition nonempty {A : Type} (l : list A) : bool :=
  match l with
  | [] => false
  | _ :: _ => true
  end.

Section Modules.

Context `{Py : Builtins}.

(** Modelled from the spec: [BaseInput.add_module], which is missing: the
    registered modules are an ordered list, in insertion order. *)
Definition add_module (modules : list module) (m : module) : list module :=
  modules ++ [m].

(** [parse_modules_args(args)], lines 143-161, on the list
    [diag_input.modules].  The arguments of [MemoryDumper] are evaluated
    from left to right, so [int(args.start, 16)] is tried first.  The
    imports inside the function (lines 148, 151 and 156) and the
    constructors of the modules are taken to succeed. *)
Definition parse_modules_args (modules : list module) (args : ModuleArgs)
  : outcome (list module) :=
  let after_memory_dump :=
    if truthy (memory_dump args) then
      match int16 (start args) with
      | None => Raised ValueError
      | Some memory_start =>
          match int16 (stop args) with
          | None => Raised ValueError
          | Some memory_stop =>
              Returned (add_module modules
                (MemoryDumper (expanduser (default EmptyString (memory_dump args)))
                              memory_start memory_stop))
          end
      end
    else Returned modules in
  match after_memory_dump with
  | Returned modules =>
      let modules :=
        match pcap_dump args with
        | Some file =>
            add_module modules
              (PcapDumper file (reassemble_sibs args) (decrypt_nas args)
                          (include_ip_traffic args))
        | None => modules
        end in
      let modules :=
        if wireshark_live args then
          add_module modules
            (WiresharkLive (reassemble_sibs args) (decrypt_nas args)
                           (include_ip_traffic args))
        else modules in
      let modules :=
        match json_geo_dump args with
        | Some file => add_module modules (JsonGeoDumper file)
        | None => modules
        end in
      let modules :=
        if decoded_sibs_dump args then add_module modules DecodedSibsDumper
        else modules in
      let modules :=
        if info args then add_module modules InfoRetriever else modules in
      let modules :=
        match dlf_dump args with
        | Some file => add_module modules (DlfDumper file)
        | None => modules
        end in
      Returned modules
  | Raised e => Raised e
  | Exited arg => Exited arg
  end.

(** Lines 166-192 of [main]: the modules of the command line are
    registered, then the command prompt and the EFS shell, each refused
    beside another module, and at least one module is required. *)
Definition register_modules (modules : list module) (args : ModuleArgs)
  : list event * outcome (list module) :=
  match parse_modules_args modules args with
  | Raised e => ([], Raised e)
  | Exited arg => ([], Exited arg)
  | Returned modules =>
      let after_cli :=
        if cli args then
          if nonempty modules || efs_shell args
          then ([EvError cli_message], Exited None)
          else ([], Returned (add_module modules CommandLineInterface))
        else ([], Returned modules) in
      match after_cli with
      | (_, Returned modules) =>
          let after_efs_shell :=
            if efs_shell args then
              if nonempty modules
              then ([EvError efs_shell_message], Exited None)
              else ([], Returned (add_module modules EfsShell))
            else ([], Returned modules) in
          match after_efs_shell with
          | (_, Returned modules) =>
              if negb (nonempty modules)
              then ([EvPrint usage; EvError no_module_message], Exited None)
              else ([], Returned modules)
          | stopped => stopped
          end
      | stopped => stopped
      end
  end.

End Modules.

(** Built-ins that read [start] and [stop] as [a] and [b]. *)
Definition builtins_of (a b : option Z) : Builtins := {|
  int16 := fun s => if bool_decide (s = "00000000"%string) then a else b;
  expanduser := id;
  usage := "usage: qcsuper"%string
|}.

Definition no_module_args : ModuleArgs := {|
  cli := false;
  efs_shell := false;
  info := false;
  pcap_dump := None;
  wireshark_live := false;
  memory_dump := None;
  dlf_dump := None;
  json_geo_dump := None;
  decoded_sibs_dump := false;
  reassemble_sibs := false;
  decrypt_nas := false;
  include_ip_traffic := false;
  start := "00000000"%string;
  stop := "ffffffff"%string
|}.

(** A framing that, as the customary one, but asserts that a buffer holds
    at least three bytes: a run can meet an exception other than
    [InvalidFrameError]. *)
Definition hdlc_asserting : HdlcMixin := {|
  trailer := 126;
  hdlc_encapsulate := Framer.encapsulate 126 125 32;
  hdlc_decapsulate := fun payload strict =>
    if (length payload <? 3)%nat then Throws AssertionError
    else Framer.decapsulate 125 32 payload strict
|}.

(** An interface that was not found. *)
Definition absent_modem : PyusbDevInterface := {|
  device := None;
  interface_index := None;
  read_endpoint := None;
  write_endpoint := None;
  not_found_reason := Some NO_MATCHING_INTERFACE;
  chardev_if_mounted := None
|}.

Definition args_adb : Args := {|
  dlf_read := None;
  adb_wsl2 := None;
  adb := true;
  usb_modem := None;
  json_geo_read := None
|}.

(** The command line [--usb-modem ''], which argparse accepts: the option
    is set, to the empty string. *)
Definition args_empty_usb_modem : Args := {|
  dlf_read := None;
  adb_wsl2 := None;
  adb := false;
  usb_modem := Some EmptyString;
  json_geo_read := None
|}.

(** The module options [--info], with [--cli] or [--efs-shell] as given,
    and [--memory-dump] as given. *)
Definition module_args (with_info with_cli with_efs_shell : bool)
    (dump : option string) : ModuleArgs := {|
  cli := with_cli;
  efs_shell := with_efs_shell;
  info := with_info;
  pcap_dump := None;
  wireshark_live := false;
  memory_dump := dump;
  dlf_dump := None;
  json_geo_dump := None;
  decoded_sibs_dump := false;
  reassemble_sibs := false;
  decrypt_nas := false;
  include_ip_traffic := false;
  start := "00000000"%string;
  stop := "ffffffff"%string
|}.

(** * Properties *)

(** ** The framing of the specification *)

Module FramerFacts.
Import Framer.

Section Codec.

Variables TRAILER ESCAPE MASK : Z.

Lemma lxor_mask_twice (b : Z) : Z.lxor (Z.lxor b MASK) MASK = b.
Proof.
  rewrite Z.lxor_assoc, Z.lxor_nilpotent. apply Z.lxor_0_r.
Qed.

Lemma unescape_escape (b : Z) (rest : bytes) :
  unescape ESCAPE MASK (escape TRAILER ESCAPE MASK b ++ rest)
  = (b :: (unescape ESCAPE MASK rest).1, (unescape ESCAPE MASK rest).2).
Proof.
  unfold escape. case_bool_decide as Hb; simpl.
  - rewrite bool_decide_eq_true_2 by reflexivity.
    destruct (unescape ESCAPE MASK rest) as [u ok]. simpl.
    now rewrite lxor_mask_twice.
  - rewrite bool_decide_eq_false_2 by tauto.
    now destruct (unescape ESCAPE MASK rest) as [u ok].
Qed.

Lemma unescape_escaped (message : bytes) :
  unescape ESCAPE MASK (concat (map (escape TRAILER ESCAPE MASK) message))
  = (message, true).
Proof.
  induction message as [|b message IH].
  - reflexivity.
  - cbn [map concat]. rewrite unescape_escape, IH. reflexivity.
Qed.

(** Decapsulating an encapsulated message gives it back, in strict mode
    as in lenient mode, when it is not empty. *)
Lemma decapsulate_encapsulate (message : bytes) (strict : bool) :
  message <> [] ->
  decapsulate ESCAPE MASK (encapsulate TRAILER ESCAPE MASK message) strict
  = Gives message.
Proof.
  intros Hne. unfold decapsulate, encapsulate.
  rewrite removelast_last, unescape_escaped.
  rewrite bool_decide_eq_true_2 by assumption.
  now destruct strict.
Qed.

(** The round trip on every type byte and payload, escaped bytes
    included. *)
Lemma decode_encode (t : Z) (p : bytes) (strict : bool) :
  decode ESCAPE MASK (encode TRAILER ESCAPE MASK t p) strict
  = Gives (Some {| type_id := t; payload := p |}).
Proof.
  unfold decode, encode.
  now rewrite decapsulate_encapsulate.
Qed.

(** The lenient mode of the framing never reports an invalid frame. *)
Lemma mixin_lenient : lenient_never_invalid (mixin TRAILER ESCAPE MASK).
Proof.
  intros raw. simpl. unfold decapsulate.
  destruct (unescape ESCAPE MASK (removelast raw)) as [u ok].
  simpl. discriminate.
Qed.

End Codec.

End FramerFacts.

(** ** The read loop *)

Section ReadLoopFacts.

Context `{Mixin : HdlcMixin}.

Lemma endswith_nil : endswith [] TRAILER_CHAR = false.
Proof.
  unfold endswith, TRAILER_CHAR. apply bool_decide_eq_false_2.
  intros Hs. apply suffix_nil_inv in Hs. discriminate.
Qed.

Lemma accumulate_eq (raw_payload : bytes) (reads : script) :
  accumulate raw_payload reads =
  if endswith raw_payload TRAILER_CHAR then Framed raw_payload reads
  else
    match reads with
    | [] => Awaiting raw_payload
    | Throws _ :: _ => ReadFailed
    | Gives [] :: _ => ReadFailed
    | Gives data_read :: reads' => accumulate (raw_payload ++ data_read) reads'
    end.
Proof.
  destruct reads as [|[[|b data]|e] reads']; reflexivity.
Qed.

(** The inner loop does not invent reads, and it consumes one when it
    starts from a buffer that does not end with the trailer. *)
Lemma accumulate_rest (reads : script) :
  forall raw_payload framed rest,
    accumulate raw_payload reads = Framed framed rest ->
    (length rest <= length reads)%nat /\
    (endswith raw_payload TRAILER_CHAR = false -> (length rest < length reads)%nat).
Proof.
  induction reads as [|r reads IH]; intros raw framed rest Hacc;
    rewrite accumulate_eq in Hacc;
    destruct (endswith raw TRAILER_CHAR) eqn:Hend.
  - injection Hacc as <- <-. split; [lia | discriminate].
  - discriminate.
  - injection Hacc as <- <-. split; [lia | discriminate].
  - destruct r as [[|b data]|e]; try discriminate.
    apply IH in Hacc as [Hle _]. simpl. split; intros; lia.
Qed.

Lemma read_loop_body_rest (self self' : UsbModemPyusbConnector)
    (reads rest : script) (tr : list event) :
  read_loop_body self reads = Continue tr self' rest ->
  (length rest < length reads)%nat.
Proof.
  unfold read_loop_body.
  destruct (accumulate [] reads) as [raw rest0| |raw] eqn:Hacc; try discriminate.
  apply accumulate_rest in Hacc as [_ Hlt]. specialize (Hlt endswith_nil).
  case_bool_decide; try discriminate.
  destruct (hdlc_decapsulate raw _) as [m|[]]; intros Heq;
    try discriminate; injection Heq as <- <- <-; exact Hlt.
Qed.

(** Fuel beyond the length of the script changes nothing. *)
Lemma read_loop_fuel_irrelevant (fuel1 : nat) :
  forall fuel2 self reads,
    (length reads < fuel1)%nat -> (length reads < fuel2)%nat ->
    read_loop_fuel fuel1 self reads = read_loop_fuel fuel2 self reads.
Proof.
  induction fuel1 as [|fuel1 IH]; intros fuel2 self reads H1 H2; [lia|].
  destruct fuel2 as [|fuel2]; [lia|]. simpl.
  destruct (read_loop_body self reads) as [tr self' rest|tr self' how] eqn:Hbody;
    [|reflexivity].
  apply read_loop_body_rest in Hbody.
  f_equal. apply IH; lia.
Qed.

Lemma read_loop_fuel_enough (fuel : nat) (self : UsbModemPyusbConnector) (reads : script) :
  (length reads < fuel)%nat ->
  read_loop_fuel fuel self reads = read_loop self reads.
Proof.
  intros Hlt. unfold read_loop. apply read_loop_fuel_irrelevant; lia.
Qed.

(** The loop on a finite script always stops: it exits, an exception
    leaves it, or it blocks in a read; the fuel never runs out. *)
Lemma read_loop_halts (self : UsbModemPyusbConnector) (reads : script) :
  exists how, halted (read_loop self reads) = Some how.
Proof.
  unfold read_loop. remember (S (length reads)) as fuel eqn:Hf.
  assert (Hlt : (length reads < fuel)%nat) by lia. clear Hf.
  revert self reads Hlt.
  induction fuel as [|fuel IH]; intros self reads Hlt; [lia|]. simpl.
  destruct (read_loop_body self reads) as [tr self' rest|tr self' how] eqn:Hbody.
  - apply read_loop_body_rest in Hbody.
    destruct (IH self' rest) as [how Hhow]; [lia|]. now exists how.
  - now exists how.
Qed.

(** The loop is its body, then the loop again. *)
Lemma read_loop_unfold (self : UsbModemPyusbConnector) (reads : script) :
  read_loop self reads =
  match read_loop_body self reads with
  | Stop tr self' how => {| trace := tr; final := self'; halted := Some how |}
  | Continue tr self' rest => after tr (read_loop self' rest)
  end.
Proof.
  unfold read_loop at 1. simpl.
  destruct (read_loop_body self reads) as [tr self' rest|tr self' how] eqn:Hbody;
    [|reflexivity].
  apply read_loop_body_rest in Hbody.
  f_equal. apply read_loop_fuel_enough. lia.
Qed.

End ReadLoopFacts.

Section RecoveryFlag.

Context `{Mixin : HdlcMixin}.


Lemma set_received_twice (self : UsbModemPyusbConnector) :
  set_received_first_packet true (set_received_first_packet true self)
  = set_received_first_packet true self.
Proof. reflexivity. Qed.

(** An iteration either attempts no decapsulation and leaves the
    connector as it is, or attempts one, with the negated flag, and
    leaves the flag set. *)
Lemma read_loop_body_flag (self : UsbModemPyusbConnector) (reads : script) :
  let it := read_loop_body self reads in
  (decapsulate_flags (events_of it) = [] /\ state_after it = self) \/
  (decapsulate_flags (events_of it) = [negb (received_first_packet self)] /\
   state_after it = set_received_first_packet true self).
Proof.
  unfold read_loop_body.
  destruct (accumulate [] reads) as [raw rest| |raw]; simpl; auto.
  case_bool_decide; simpl; auto.
  destruct (hdlc_decapsulate raw _) as [m|[]]; simpl; auto.
Qed.


End RecoveryFlag.


(** C2: when the buffer accumulated by an iteration is exactly the trailer
    byte, the iteration prints that the modem seems unavailable and exits:
    nothing is decapsulated, nothing is dispatched, the connector is left as
    it was, and the session ends with the disposal. *)
Theorem lone_trailer_is_fatal `{Mixin : HdlcMixin}
    (self : UsbModemPyusbConnector) (reads rest : script) :
  accumulate [] reads = Framed TRAILER_CHAR rest ->
  read_loop_body self reads
    = Stop [EvPrint modem_unavailable_message] self (SystemExit None) /\
  read_loop self reads
    = {| trace := [EvPrint modem_unavailable_message]; final := self;
         halted := Some (SystemExit None) |} /\
  run_session self reads
    = {| trace := [EvPrint modem_unavailable_message; EvDispose]; final := self;
         halted := Some (SystemExit None) |}.
Proof.
  intros Hacc.
  assert (Hbody : read_loop_body self reads
                  = Stop [EvPrint modem_unavailable_message] self (SystemExit None)).
  { unfold read_loop_body. rewrite Hacc.
    now rewrite bool_decide_eq_true_2 by reflexivity. }
  assert (Hloop : read_loop self reads
                  = {| trace := [EvPrint modem_unavailable_message]; final := self;
                       halted := Some (SystemExit None) |}).
  { now rewrite read_loop_unfold, Hbody. }
  repeat split; try assumption.
  unfold run_session, run_input. now rewrite Hloop.
Qed.

Lemma lone_trailer_is_fatal_witness :
  @read_loop_body hdlc_7e fresh [Gives [126]; Gives [1; 65; 126]]
    = Stop [EvPrint modem_unavailable_message] fresh (SystemExit None) /\
  @read_loop hdlc_7e fresh [Gives [126]; Gives [1; 65; 126]]
    = {| trace := [EvPrint modem_unavailable_message]; final := fresh;
         halted := Some (SystemExit None) |} /\
  @run_session hdlc_7e fresh [Gives [126]; Gives [1; 65; 126]]
    = {| trace := [EvPrint modem_unavailable_message; EvDispose]; final := fresh;
         halted := Some (SystemExit None) |}.
Proof.
  apply (@lone_trailer_is_fatal hdlc_7e fresh _ [Gives [1; 65; 126]]).
  vm_compute. reflexivity.
Defined.

(** C3: when the decapsulation of an iteration raises [InvalidFrameError],
    the iteration dispatches nothing, sets [received_first_packet], and the
    loop goes on with the next iteration, which accumulates the rest of the
    reads from an empty buffer; under the contract of the lenient mode this
    happens only while the flag is still unset. *)
Theorem invalid_frame_is_skipped `{Mixin : HdlcMixin}
    (self : UsbModemPyusbConnector) (reads rest : script) (raw_payload : bytes) :
  accumulate [] reads = Framed raw_payload rest ->
  raw_payload <> TRAILER_CHAR ->
  hdlc_decapsulate raw_payload (negb (received_first_packet self))
    = Throws InvalidFrameError ->
  let self' := set_received_first_packet true self in
  let tr := [EvDecapsulate raw_payload (negb (received_first_packet self))] in
  read_loop_body self reads = Continue tr self' rest /\
  filter is_dispatch tr = [] /\
  received_first_packet self' = true /\
  read_loop self reads = after tr (read_loop self' rest) /\
  (lenient_never_invalid Mixin -> received_first_packet self = false).
Proof.
  intros Hacc Hne Hdec self' tr.
  assert (Hbody : read_loop_body self reads = Continue tr self' rest).
  { unfold read_loop_body. rewrite Hacc.
    rewrite bool_decide_eq_false_2 by assumption. now rewrite Hdec. }
  repeat split; try assumption; try reflexivity.
  - now rewrite read_loop_unfold, Hbody.
  - intros Hlenient. destruct (received_first_packet self); [|reflexivity].
    now apply Hlenient in Hdec.
Qed.

Lemma invalid_frame_is_skipped_witness :
  let self' := set_received_first_packet true fresh in
  let tr := [EvDecapsulate [125; 126] true] in
  @read_loop_body hdlc_7e fresh [Gives [125; 126]; Gives [1; 65; 126]]
    = Continue tr self' [Gives [1; 65; 126]] /\
  filter is_dispatch tr = [] /\
  received_first_packet self' = true /\
  @read_loop hdlc_7e fresh [Gives [125; 126]; Gives [1; 65; 126]]
    = after tr (@read_loop hdlc_7e self' [Gives [1; 65; 126]]) /\
  (lenient_never_invalid hdlc_7e -> received_first_packet fresh = false).
Proof.
  apply (@invalid_frame_is_skipped hdlc_7e fresh
           [Gives [125; 126]; Gives [1; 65; 126]] [Gives [1; 65; 126]] [125; 126]).
  - vm_compute. reflexivity.
  - vm_compute. discriminate.
  - vm_compute. reflexivity.
Defined.

(** ** A read that fails while the loop waits for it *)

Section FatalRead.

Context `{Mixin : HdlcMixin}.

Lemma accumulate_awaiting_fatal (pre : script) :
  forall (raw_payload waiting : bytes) (x : answer bytes) (post : script),
    accumulate raw_payload pre = Awaiting waiting ->
    fatal_read x = true ->
    accumulate raw_payload (pre ++ x :: post) = ReadFailed.
Proof.
  induction pre as [|r pre IH]; intros raw waiting x post Hacc Hx;
    rewrite accumulate_eq in Hacc; rewrite accumulate_eq;
    destruct (endswith raw TRAILER_CHAR); try discriminate; simpl.
  - destruct x as [[|b data]|e]; try discriminate; reflexivity.
  - destruct r as [[|b data]|e]; try discriminate. eauto.
Qed.

Lemma accumulate_framed_app (pre : script) :
  forall (raw_payload framed : bytes) (rest more : script),
    accumulate raw_payload pre = Framed framed rest ->
    accumulate raw_payload (pre ++ more) = Framed framed (rest ++ more).
Proof.
  induction pre as [|r pre IH]; intros raw framed rest more Hacc;
    rewrite accumulate_eq in Hacc; rewrite accumulate_eq;
    destruct (endswith raw TRAILER_CHAR); try discriminate.
  - now injection Hacc as <- <-.
  - now injection Hacc as <- <-.
  - destruct r as [[|b data]|e]; try discriminate. simpl. eauto.
Qed.

Lemma accumulate_awaiting_open (pre : script) :
  forall raw_payload waiting : bytes,
    accumulate raw_payload pre = Awaiting waiting ->
    endswith waiting TRAILER_CHAR = false.
Proof.
  induction pre as [|r pre IH]; intros raw waiting Hacc;
    rewrite accumulate_eq in Hacc;
    destruct (endswith raw TRAILER_CHAR) eqn:Hend; try discriminate.
  - now injection Hacc as <-.
  - destruct r as [[|b data]|e]; try discriminate. eauto.
Qed.

Lemma read_loop_body_blocked (self self' : UsbModemPyusbConnector)
    (pre : script) (tr : list event) (waiting : bytes) :
  read_loop_body self pre = Stop tr self' (BlockedInRead waiting) ->
  tr = [] /\ self' = self /\
  endswith waiting TRAILER_CHAR = false /\
  forall (x : answer bytes) (post : script),
    fatal_read x = true ->
    read_loop_body self (pre ++ x :: post) = Stop [] self (SystemExit None).
Proof.
  unfold read_loop_body.
  destruct (accumulate [] pre) as [raw rest| |raw] eqn:Hacc.
  - case_bool_decide; [discriminate|].
    destruct (hdlc_decapsulate raw _) as [m|[]]; discriminate.
  - discriminate.
  - intros Heq. injection Heq as <- <- <-. repeat split.
    + now apply accumulate_awaiting_open in Hacc.
    + intros x post Hx. now rewrite (accumulate_awaiting_fatal _ _ _ _ _ Hacc Hx).
Qed.

Lemma read_loop_body_continue_app (self self' : UsbModemPyusbConnector)
    (pre rest more : script) (tr : list event) :
  read_loop_body self pre = Continue tr self' rest ->
  read_loop_body self (pre ++ more) = Continue tr self' (rest ++ more).
Proof.
  unfold read_loop_body.
  destruct (accumulate [] pre) as [raw rest0| |raw] eqn:Hacc; try discriminate.
  rewrite (accumulate_framed_app _ _ _ _ more Hacc).
  case_bool_decide; [discriminate|].
  destruct (hdlc_decapsulate raw _) as [m|[]]; intros Heq;
    try discriminate; now injection Heq as <- <- <-.
Qed.

Lemma read_loop_fuel_fatal (fuel : nat) :
  forall (self : UsbModemPyusbConnector) (pre : script) (waiting : bytes)
         (x : answer bytes) (post : script),
    halted (read_loop_fuel fuel self pre) = Some (BlockedInRead waiting) ->
    fatal_read x = true ->
    endswith waiting TRAILER_CHAR = false /\
    read_loop_fuel fuel self (pre ++ x :: post)
    = {| trace := trace (read_loop_fuel fuel self pre);
         final := final (read_loop_fuel fuel self pre);
         halted := Some (SystemExit None) |}.
Proof.
  induction fuel as [|fuel IH]; intros self pre waiting x post Hblocked Hx;
    simpl in Hblocked |- *; [discriminate|].
  destruct (read_loop_body self pre) as [tr self' rest|tr self' how] eqn:Hbody.
  - rewrite (read_loop_body_continue_app _ _ _ _ (x :: post) _ Hbody).
    simpl in Hblocked. destruct (IH _ _ _ _ post Hblocked Hx) as [Hopen ->].
    now split.
  - simpl in Hblocked. injection Hblocked as ->.
    apply read_loop_body_blocked in Hbody as (-> & -> & Hopen & Hfatal).
    now rewrite Hfatal.
Qed.

(** When the loop, having consumed [pre], waits in a read, and that read
    ends fatally, the loop exits with what it had done on [pre]; what
    would have been read afterwards plays no part. *)
Lemma read_loop_fatal (self : UsbModemPyusbConnector) (pre post : script)
    (waiting : bytes) (x : answer bytes) :
  halted (read_loop self pre) = Some (BlockedInRead waiting) ->
  fatal_read x = true ->
  accumulate waiting (x :: post) = ReadFailed /\
  read_loop self (pre ++ x :: post)
  = {| trace := trace (read_loop self pre);
       final := final (read_loop self pre);
       halted := Some (SystemExit None) |}.
Proof.
  intros Hblocked Hx.
  set (fuel := S (length (pre ++ x :: post))).
  assert (Hpre : read_loop_fuel fuel self pre = read_loop self pre).
  { apply read_loop_fuel_enough. subst fuel. rewrite length_app. lia. }
  unfold read_loop at 1. fold fuel.
  rewrite <- Hpre in Hblocked |- *.
  destruct (read_loop_fuel_fatal fuel _ _ _ _ post Hblocked Hx) as [Hopen Hrun].
  split; [|exact Hrun].
  rewrite accumulate_eq, Hopen.
  destruct x as [[|b data]|e]; try discriminate; reflexivity.
Qed.

Lemma run_session_fatal (self : UsbModemPyusbConnector) (pre post : script)
    (waiting : bytes) (x : answer bytes) :
  halted (read_loop self pre) = Some (BlockedInRead waiting) ->
  fatal_read x = true ->
  accumulate waiting (x :: post) = ReadFailed /\
  run_session self (pre ++ x :: post)
  = {| trace := trace (read_loop self pre) ++ [EvDispose];
       final := final (read_loop self pre);
       halted := Some (SystemExit None) |}.
Proof.
  intros Hblocked Hx.
  destruct (read_loop_fatal _ _ post _ _ Hblocked Hx) as [Hacc Hrun].
  split; [exact Hacc|]. unfold run_session, run_input. now rewrite Hrun.
Qed.

End FatalRead.

(** C5: when the loop waits in a read of the accumulation loop, with
    [waiting] accumulated so far, and that read raises, whatever the
    exception, the accumulation ends in [exit()] and the session is over:
    its trace is what the loop had done before, followed by the disposal,
    so nothing is dispatched after the failure, and the later reads are
    never made. *)
Theorem read_failure_is_fatal `{Mixin : HdlcMixin}
    (self : UsbModemPyusbConnector) (pre post : script) (waiting : bytes) (e : exc) :
  halted (read_loop self pre) = Some (BlockedInRead waiting) ->
  accumulate waiting (Throws e :: post) = ReadFailed /\
  run_session self (pre ++ Throws e :: post)
  = {| trace := trace (read_loop self pre) ++ [EvDispose];
       final := final (read_loop self pre);
       halted := Some (SystemExit None) |}.
Proof.
  intros Hblocked. now apply run_session_fatal.
Qed.

Lemma read_failure_is_fatal_witness :
  accumulate (Mixin := hdlc_7e) [2; 66] [Throws USBError; Gives [67; 126]] = ReadFailed /\
  run_session (Mixin := hdlc_7e) fresh
    ([Gives [1; 65; 126]; Gives [2; 66]] ++ [Throws USBError; Gives [67; 126]])
  = {| trace := trace (read_loop (Mixin := hdlc_7e) fresh [Gives [1; 65; 126]; Gives [2; 66]])
                ++ [EvDispose];
       final := final (read_loop (Mixin := hdlc_7e) fresh [Gives [1; 65; 126]; Gives [2; 66]]);
       halted := Some (SystemExit None) |}.
Proof.
  apply (@read_failure_is_fatal hdlc_7e fresh
           [Gives [1; 65; 126]; Gives [2; 66]] [Gives [67; 126]] [2; 66] USBError).
  vm_compute. reflexivity.
Defined.

(** C9: when the loop waits in a read of the accumulation loop and that
    read returns an empty bytes object, the assertion fails inside the
    [try] and the handler exits: the session is over as after a read that
    raises, and the empty chunk is not appended for another turn of the
    loop. *)
Theorem empty_read_is_fatal `{Mixin : HdlcMixin}
    (self : UsbModemPyusbConnector) (pre post : script) (waiting : bytes) :
  halted (read_loop self pre) = Some (BlockedInRead waiting) ->
  accumulate waiting (Gives [] :: post) = ReadFailed /\
  run_session self (pre ++ Gives [] :: post)
  = {| trace := trace (read_loop self pre) ++ [EvDispose];
       final := final (read_loop self pre);
       halted := Some (SystemExit None) |}.
Proof.
  intros Hblocked. now apply run_session_fatal.
Qed.

Lemma empty_read_is_fatal_witness :
  accumulate (Mixin := hdlc_7e) [2; 66] [Gives []; Gives [67; 126]] = ReadFailed /\
  run_session (Mixin := hdlc_7e) fresh
    ([Gives [1; 65; 126]; Gives [2; 66]] ++ [Gives []; Gives [67; 126]])
  = {| trace := trace (read_loop (Mixin := hdlc_7e) fresh [Gives [1; 65; 126]; Gives [2; 66]])
                ++ [EvDispose];
       final := final (read_loop (Mixin := hdlc_7e) fresh [Gives [1; 65; 126]; Gives [2; 66]]);
       halted := Some (SystemExit None) |}.
Proof.
  apply (@empty_read_is_fatal hdlc_7e fresh
           [Gives [1; 65; 126]; Gives [2; 66]] [Gives [67; 126]] [2; 66]).
  vm_compute. reflexivity.
Defined.

(** ** Requests *)

(** X15: an exception of the write that is not a [USBError] is not
    caught: it reaches the caller of [send_request], after the one write and
    with no warning printed. *)
Lemma send_request_other_exception `{Mixin : HdlcMixin} `{Usb : Pyusb}
    (self : UsbModemPyusbConnector) (packet_type : Z) (packet_payload : bytes)
    (ep : nat) (e : exc) :
  0 <= packet_type < 256 ->
  write_endpoint (dev_intf self) = Some ep ->
  endpoint_write ep (hdlc_encapsulate (packet_type :: packet_payload)) = Throws e ->
  isinstance_USBError e = false ->
  send_request self packet_type packet_payload
  = ([EvWrite (hdlc_encapsulate (packet_type :: packet_payload))], self, Raised e).
Proof.
  intros Hbyte Hep Hwrite He. unfold send_request.
  rewrite bool_decide_eq_true_2 by assumption.
  now rewrite Hep, Hwrite, He.
Qed.

(** C4, as amended: when the write of the encapsulated request to the
    endpoint raises pyusb's [USBError] (or a subclass of it), [send_request]
    prints the warning and returns: nothing is raised to the caller, no
    exit is taken, and the connector is left as it was; when the write
    raises an exception of another class, no warning is printed and the
    exception reaches the caller. *)
Theorem usb_error_of_write_is_recovered `{Mixin : HdlcMixin} `{Usb : Pyusb}
    (self : UsbModemPyusbConnector) (packet_type : Z) (packet_payload : bytes)
    (ep : nat) (e : exc) :
  0 <= packet_type < 256 ->
  write_endpoint (dev_intf self) = Some ep ->
  endpoint_write ep (hdlc_encapsulate (packet_type :: packet_payload)) = Throws e ->
  send_request self packet_type packet_payload
  = (if isinstance_USBError e
     then ([EvWrite (hdlc_encapsulate (packet_type :: packet_payload));
            EvPrint write_failure_message], self, Returned tt)
     else ([EvWrite (hdlc_encapsulate (packet_type :: packet_payload))],
           self, Raised e)).
Proof.
  intros Hbyte Hep Hwrite. unfold send_request.
  rewrite bool_decide_eq_true_2 by assumption.
  rewrite Hep, Hwrite. now destruct (isinstance_USBError e).
Qed.

Lemma usb_error_of_write_is_recovered_witness :
  @send_request hdlc_7e (pyusb_of (Gives false) (Throws USBTimeoutError)) fresh 126 [1; 125]
  = (if isinstance_USBError USBTimeoutError
     then ([EvWrite (@hdlc_encapsulate hdlc_7e [126; 1; 125]);
            EvPrint write_failure_message], fresh, Returned tt)
     else ([EvWrite (@hdlc_encapsulate hdlc_7e [126; 1; 125])],
           fresh, Raised USBTimeoutError)).
Proof.
  apply (@usb_error_of_write_is_recovered hdlc_7e
           (pyusb_of (Gives false) (Throws USBTimeoutError)) fresh 126 [1; 125] 1%nat
           USBTimeoutError).
  - lia.
  - reflexivity.
  - reflexivity.
Defined.

(** C4, as stated, fails: with a write that raises [ValueError], which is
    not a [USBError], [send_request] prints no warning and the exception
    reaches its caller. *)
Lemma write_failure_reaches_the_caller :
  @endpoint_write (pyusb_of (Gives false) (Throws ValueError)) 1%nat
    (@hdlc_encapsulate hdlc_7e [1; 65]) = Throws ValueError /\
  @send_request hdlc_7e (pyusb_of (Gives false) (Throws ValueError)) fresh 1 [65]
  = ([EvWrite (@hdlc_encapsulate hdlc_7e [1; 65])], fresh, Raised ValueError) /\
  (@send_request hdlc_7e (pyusb_of (Gives false) (Throws ValueError)) fresh 1 [65]).2
  <> Returned tt.
Proof.
  repeat split. vm_compute. discriminate.
Qed.

(** ** Framing *)

(** C6: for every type byte [t] and every payload [P] that holds neither
    the trailer byte nor the escape byte, decoding in strict mode the
    encoding of [t] and [P] gives the packet of type [t] and payload [P].
    ([FramerFacts.decode_encode] shows that the restriction on [P] is not
    needed.) *)
Theorem encode_decode_round_trip (TRAILER ESCAPE MASK : Z) (t : Z) (P : bytes) :
  is_byte t ->
  TRAILER ∉ P ->
  ESCAPE ∉ P ->
  Framer.decode ESCAPE MASK (Framer.encode TRAILER ESCAPE MASK t P) true
  = Gives (Some {| Framer.type_id := t; Framer.payload := P |}).
Proof.
  intros _ _ _. apply FramerFacts.decode_encode.
Qed.

Lemma encode_decode_round_trip_witness :
  Framer.decode 125 32 (Framer.encode 126 125 32 1 [65; 66]) true
  = Gives (Some {| Framer.type_id := 1; Framer.payload := [65; 66] |}).
Proof.
  apply (encode_decode_round_trip 126 125 32 1 [65; 66]).
  - unfold is_byte. lia.
  - rewrite !elem_of_cons, elem_of_nil. lia.
  - rewrite !elem_of_cons, elem_of_nil. lia.
Defined.

(** ** Construction of the connector *)

(** C8: when the kernel-driver query gives true, the construction exits
    with the message that advises to pass a device name or to unmount the
    driver; no connector is returned, so no endpoint of the interface is
    ever read or written through one. *)
Theorem kernel_driver_conflict_fails_fast `{Usb : Pyusb} (d : PyusbDevInterface) :
  kernel_driver_query d = Gives true ->
  init d = Exited (Some kernel_driver_message) /\
  contains "Please pass directly a device name" kernel_driver_message = true /\
  contains "--usb-modem /dev/ttyUSB2" kernel_driver_message = true /\
  contains "unmount the corresponding driver" kernel_driver_message = true.
Proof.
  intros Hquery. unfold init. rewrite Hquery.
  repeat split; vm_compute; reflexivity.
Qed.

Lemma kernel_driver_conflict_fails_fast_witness :
  @init (pyusb_of (Gives true) (Gives 0)) (modem None)
  = Exited (Some kernel_driver_message) /\
  contains "Please pass directly a device name" kernel_driver_message = true /\
  contains "--usb-modem /dev/ttyUSB2" kernel_driver_message = true /\
  contains "unmount the corresponding driver" kernel_driver_message = true.
Proof.
  apply (@kernel_driver_conflict_fails_fast (pyusb_of (Gives true) (Gives 0)) (modem None)).
  reflexivity.
Defined.

(** C10: when the kernel-driver query raises, whatever the exception, the
    construction returns the connector, with no message and no exit; and
    the construction exits only when the query gave true. *)
Theorem kernel_driver_query_failure_is_swallowed `{Usb : Pyusb}
    (d : PyusbDevInterface) :
  (forall e : exc,
     kernel_driver_query d = Throws e ->
     init d = Returned {| dev_intf := d; received_first_packet := false |}) /\
  (forall arg : option string,
     init d = Exited arg ->
     kernel_driver_query d = Gives true /\ arg = Some kernel_driver_message).
Proof.
  unfold init. split.
  - intros e ->. reflexivity.
  - intros arg. destruct (kernel_driver_query d) as [[|]|e]; try discriminate.
    intros Heq. injection Heq as <-. now split.
Qed.

Lemma kernel_driver_query_failure_is_swallowed_witness :
  @init (pyusb_of (Throws NotImplementedError) (Gives 0)) (modem None)
  = Returned {| dev_intf := modem None; received_first_packet := false |}.
Proof.
  apply (proj1 (@kernel_driver_query_failure_is_swallowed
                  (pyusb_of (Throws NotImplementedError) (Gives 0)) (modem None))
               NotImplementedError).
  reflexivity.
Defined.

(** ** Input selection *)

(** C7: for an interface that [main] has resolved and that carries no
    not-found reason, the input is the pyserial connector over the
    character device when one is mounted, and the construction of the pyusb
    connector otherwise; a pyusb connector comes out only when no character
    device is mounted. *)
Theorem chardev_takes_precedence `{Usb : Pyusb} `{Sys : Host}
    (args : Args) (d : PyusbDevInterface) :
  resolves args d ->
  not_found_reason d = None ->
  (select_input args).2
  = (if truthy (chardev_if_mounted d)
     then Returned (UsbModemPyserialConnector (chardev_if_mounted d))
     else outcome_map UsbModemPyusb (init d)) /\
  (forall c : UsbModemPyusbConnector,
     (select_input args).2 = Returned (UsbModemPyusb c) ->
     truthy (chardev_if_mounted d) = false /\ dev_intf c = d).
Proof.
  intros Hres Hfound.
  assert (Hsel : (select_input args).2 = serial_or_pyusb d).
  { unfold select_input.
    destruct Hres as [Hdlf Hwsl Hfile Hum | Hdlf Hwsl Hadb Hum
                     | t Hdlf Hwsl Hadb Husb Htype Ht ->].
    - rewrite Hdlf, Hwsl, Hfile, Hum. simpl. now rewrite Hfound.
    - rewrite Hdlf, Hwsl, Hadb, Hum. simpl. now rewrite Hfound.
    - rewrite Hdlf, Hwsl, Hadb, Husb, Htype, Hfound.
      destruct t; [contradiction| | |]; reflexivity. }
  rewrite Hsel. unfold serial_or_pyusb. split; [reflexivity|].
  intros c. destruct (truthy (chardev_if_mounted d)); [discriminate|].
  unfold init.
  destruct (kernel_driver_query d) as [[|]|e]; simpl; try discriminate;
    intros Heq; injection Heq as <-; now split.
Qed.

Lemma chardev_takes_precedence_witness :
  let usb := pyusb_of (Gives false) (Gives 0) in
  let d := modem (Some "/dev/ttyUSB0"%string) in
  (@select_input usb (host_of d) (args_usb_modem "05c6:9091")).2
  = (if truthy (chardev_if_mounted d)
     then Returned (UsbModemPyserialConnector (chardev_if_mounted d))
     else outcome_map UsbModemPyusb (@init usb d)) /\
  (forall c : UsbModemPyusbConnector,
     (@select_input usb (host_of d) (args_usb_modem "05c6:9091")).2
     = Returned (UsbModemPyusb c) ->
     truthy (chardev_if_mounted d) = false /\ dev_intf c = d).
Proof.
  intros usb d.
  apply (@chardev_takes_precedence usb (host_of d) (args_usb_modem "05c6:9091") d).
  - apply (@resolves_from_arg (host_of d) _ _ pyusb_vid_pid);
      try reflexivity. discriminate.
  - reflexivity.
Defined.

(** * Further properties of the connector *)

(** ** Accumulation of a frame *)

Section Accumulation.

Context `{Mixin : HdlcMixin}.

Lemma endswith_last (s : bytes) :
  endswith s TRAILER_CHAR = bool_decide (last s = Some trailer).
Proof.
  unfold endswith, TRAILER_CHAR. apply bool_decide_ext. split.
  - intros [k ->]. apply last_snoc.
  - intros Hlast. destruct s as [|b s] using rev_ind; [discriminate|].
    rewrite last_snoc in Hlast. injection Hlast as ->. now exists s.
Qed.

Lemma endswith_app (raw_payload data_read : bytes) :
  data_read <> [] ->
  endswith (raw_payload ++ data_read) TRAILER_CHAR = endswith data_read TRAILER_CHAR.
Proof.
  intros Hne. rewrite !endswith_last.
  destruct data_read as [|b data] using rev_ind; [contradiction|].
  now rewrite app_assoc, !last_snoc.
Qed.

Lemma endswith_nonempty (s : bytes) :
  endswith s TRAILER_CHAR = true -> s <> [].
Proof.
  intros Hend ->. now rewrite endswith_nil in Hend.
Qed.

Lemma accumulate_chunks (chunks : list bytes) :
  forall (raw_payload last_chunk : bytes) (rest : script),
    endswith raw_payload TRAILER_CHAR = false ->
    Forall (fun c => c <> [] /\ endswith c TRAILER_CHAR = false) chunks ->
    endswith last_chunk TRAILER_CHAR = true ->
    accumulate raw_payload (map Gives (chunks ++ [last_chunk]) ++ rest)
    = Framed (raw_payload ++ concat chunks ++ last_chunk) rest.
Proof.
  induction chunks as [|c chunks IH]; intros raw final rest Hraw Hchunks Hfinal;
    rewrite accumulate_eq, Hraw; simpl.
  - pose proof (endswith_nonempty _ Hfinal) as Hne.
    destruct final as [|b final]; [contradiction|].
    rewrite accumulate_eq, endswith_app, Hfinal by discriminate. reflexivity.
  - apply Forall_cons in Hchunks as [[Hne Hc] Hchunks].
    destruct c as [|b c]; [contradiction|].
    rewrite IH; try assumption.
    + now rewrite <- !app_assoc.
    + now rewrite endswith_app, Hc by discriminate.
Qed.

(** What the accumulation loop hands over is the buffer it started from
    followed by the chunks it has read, all of them non-empty, and ends with
    the trailer; the reads it has not made are left. *)
Lemma accumulate_framed_inv (reads : script) :
  forall (raw_payload framed : bytes) (rest : script),
    accumulate raw_payload reads = Framed framed rest ->
    endswith framed TRAILER_CHAR = true /\
    exists chunks : list bytes,
      reads = map Gives chunks ++ rest /\
      framed = raw_payload ++ concat chunks /\
      Forall (fun c => c <> []) chunks.
Proof.
  induction reads as [|r reads IH]; intros raw framed rest Hacc;
    rewrite accumulate_eq in Hacc;
    destruct (endswith raw TRAILER_CHAR) eqn:Hend; try discriminate.
  - injection Hacc as <- <-. split; [assumption|].
    exists []. simpl. now rewrite app_nil_r.
  - injection Hacc as <- <-. split; [assumption|].
    exists []. simpl. now rewrite app_nil_r.
  - destruct r as [[|b data]|e]; try discriminate.
    apply IH in Hacc as (Hframed & chunks & -> & -> & Hchunks).
    split; [assumption|]. exists ((b :: data) :: chunks). simpl.
    rewrite <- app_assoc. repeat split. now constructor.
Qed.

Lemma accumulate_awaiting_inv (reads : script) :
  forall raw_payload waiting : bytes,
    accumulate raw_payload reads = Awaiting waiting ->
    exists chunks : list bytes,
      reads = map Gives chunks /\ waiting = raw_payload ++ concat chunks.
Proof.
  induction reads as [|r reads IH]; intros raw waiting Hacc;
    rewrite accumulate_eq in Hacc;
    destruct (endswith raw TRAILER_CHAR) eqn:Hend; try discriminate.
  - injection Hacc as <-. exists []. simpl. now rewrite app_nil_r.
  - destruct r as [[|b data]|e]; try discriminate.
    apply IH in Hacc as (chunks & -> & ->).
    exists ((b :: data) :: chunks). simpl. now rewrite <- app_assoc.
Qed.

End Accumulation.

(** X1: a frame that arrives in several reads, none of which but the last
    ends with the trailer byte, is accumulated into one buffer, and the loop
    does on these reads what it does when the frame arrives in one read. *)
Theorem chunked_frame_is_reassembled `{Mixin : HdlcMixin}
    (self : UsbModemPyusbConnector) (chunks : list bytes) (last_chunk : bytes)
    (rest : script) :
  Forall (fun c => c <> [] /\ endswith c TRAILER_CHAR = false) chunks ->
  endswith last_chunk TRAILER_CHAR = true ->
  accumulate [] (map Gives (chunks ++ [last_chunk]) ++ rest)
  = Framed (concat chunks ++ last_chunk) rest /\
  read_loop self (map Gives (chunks ++ [last_chunk]) ++ rest)
  = read_loop self (Gives (concat chunks ++ last_chunk) :: rest).
Proof.
  intros Hchunks Hlast.
  assert (Hmany : accumulate [] (map Gives (chunks ++ [last_chunk]) ++ rest)
                  = Framed (concat chunks ++ last_chunk) rest).
  { now rewrite accumulate_chunks by (try apply endswith_nil; assumption). }
  assert (Hone : accumulate [] (Gives (concat chunks ++ last_chunk) :: rest)
                 = Framed (concat chunks ++ last_chunk) rest).
  { assert (Hend : endswith (concat chunks ++ last_chunk) TRAILER_CHAR = true).
    { rewrite endswith_app; [assumption|]. now apply endswith_nonempty. }
    change (Gives (concat chunks ++ last_chunk) :: rest)
      with (map Gives ([] ++ [concat chunks ++ last_chunk]) ++ rest).
    rewrite accumulate_chunks; try apply endswith_nil; try assumption; auto. }
  split; [exact Hmany|].
  rewrite !read_loop_unfold. unfold read_loop_body. now rewrite Hmany, Hone.
Qed.

Lemma chunked_frame_is_reassembled_witness :
  accumulate (Mixin := hdlc_7e) []
    (map Gives ([[1]; [65; 126; 66]] ++ [[67; 126]]) ++ [Gives [2; 126]])
  = Framed (concat [[1]; [65; 126; 66]] ++ [67; 126]) [Gives [2; 126]] /\
  read_loop (Mixin := hdlc_7e) fresh
    (map Gives ([[1]; [65; 126; 66]] ++ [[67; 126]]) ++ [Gives [2; 126]])
  = read_loop (Mixin := hdlc_7e) fresh
      (Gives (concat [[1]; [65; 126; 66]] ++ [67; 126]) :: [Gives [2; 126]]).
Proof.
  apply (@chunked_frame_is_reassembled hdlc_7e fresh [[1]; [65; 126; 66]] [67; 126]
           [Gives [2; 126]]).
  - repeat constructor; try discriminate.
  - vm_compute. reflexivity.
Defined.

(** X2: the buffer that the accumulation loop hands over is the
    concatenation of the chunks it has read, each of them non-empty; it is
    not empty and ends with the trailer byte, and the reads that follow are
    left for the next iteration. *)
Theorem accumulated_frame_is_the_reads `{Mixin : HdlcMixin}
    (reads rest : script) (framed : bytes) :
  accumulate [] reads = Framed framed rest ->
  last framed = Some trailer /\
  exists chunks : list bytes,
    reads = map Gives chunks ++ rest /\
    framed = concat chunks /\
    chunks <> [] /\
    Forall (fun c => c <> []) chunks.
Proof.
  intros Hacc.
  apply accumulate_framed_inv in Hacc as (Hend & chunks & -> & -> & Hchunks).
  rewrite endswith_last in Hend. apply bool_decide_eq_true_1 in Hend.
  split; [assumption|]. exists chunks. repeat split; try assumption.
  intros ->. discriminate.
Qed.

Lemma accumulated_frame_is_the_reads_witness :
  last [1; 65; 126] = Some (trailer (HdlcMixin := hdlc_7e)) /\
  exists chunks : list bytes,
    [Gives [1]; Gives [65; 126]; Gives [2; 126]] = map Gives chunks ++ [Gives [2; 126]] /\
    [1; 65; 126] = concat chunks /\
    chunks <> [] /\
    Forall (fun c => c <> []) chunks.
Proof.
  apply (@accumulated_frame_is_the_reads hdlc_7e
           [Gives [1]; Gives [65; 126]; Gives [2; 126]] [Gives [2; 126]] [1; 65; 126]).
  vm_compute. reflexivity.
Defined.

(** ** The trace of the loop *)

Section TraceFacts.

Context `{Mixin : HdlcMixin}.

Ltac by_trace_induction tr :=
  induction tr as [|[] ? ?]; simpl; try reflexivity; try assumption;
  repeat match goal with
         | |- context [hdlc_decapsulate ?p ?s] => destruct (hdlc_decapsulate p s) as [?|[]]
         end;
  simpl; congruence.

Lemma decapsulated_app (tr1 tr2 : list event) :
  decapsulated (tr1 ++ tr2) = decapsulated tr1 ++ decapsulated tr2.
Proof. by_trace_induction tr1. Qed.

Lemma dispatched_app (tr1 tr2 : list event) :
  dispatched (tr1 ++ tr2) = dispatched tr1 ++ dispatched tr2.
Proof. by_trace_induction tr1. Qed.

Lemma given_app (tr1 tr2 : list event) :
  given (tr1 ++ tr2) = given tr1 ++ given tr2.
Proof. by_trace_induction tr1. Qed.

Lemma skipped_app (tr1 tr2 : list event) :
  skipped (tr1 ++ tr2) = skipped tr1 ++ skipped tr2.
Proof. by_trace_induction tr1. Qed.

Lemma decapsulate_flags_length (tr : list event) :
  length (decapsulate_flags tr) = length (decapsulated tr).
Proof. by_trace_induction tr. Qed.

Lemma given_length (tr : list event) :
  (length (given tr) <= length (decapsulated tr))%nat.
Proof.
  induction tr as [|[] tr IH]; simpl; try lia.
  destruct (hdlc_decapsulate _ _); simpl; lia.
Qed.

Lemma skipped_length (tr : list event) :
  (length (skipped tr) <= length (decapsulated tr))%nat.
Proof.
  induction tr as [|[] tr IH]; simpl; try lia.
  destruct (hdlc_decapsulate _ _) as [?|[]]; simpl; lia.
Qed.

Ltac body_cases self reads :=
  unfold read_loop_body;
  let raw := fresh "raw" in
  let rest := fresh "rest" in
  let Hacc := fresh "Hacc" in
  let Hraw := fresh "Hraw" in
  let Hdec := fresh "Hdec" in
  destruct (accumulate [] reads) as [raw rest| |raw] eqn:Hacc;
  [ case_bool_decide as Hraw;
    [ | destruct (hdlc_decapsulate raw (negb (received_first_packet self)))
          as [?|[]] eqn:Hdec ]
  | | ]; simpl.

(** Every buffer decapsulated by an iteration ends with the trailer and is
    not the lone trailer. *)
Lemma read_loop_body_decapsulated (self : UsbModemPyusbConnector) (reads : script) :
  Forall (fun p => endswith p TRAILER_CHAR = true /\ p <> TRAILER_CHAR)
         (decapsulated (events_of (read_loop_body self reads))).
Proof.
  body_cases self reads; try constructor; try constructor;
    try assumption; now apply accumulate_framed_inv in Hacc as [? _].
Qed.

Lemma read_loop_body_dispatched (self : UsbModemPyusbConnector) (reads : script) :
  dispatched (events_of (read_loop_body self reads))
  = given (events_of (read_loop_body self reads)).
Proof.
  body_cases self reads; try reflexivity; now rewrite Hdec.
Qed.

(** An iteration decapsulates at most once, and only after a read. *)
Lemma read_loop_body_count (self : UsbModemPyusbConnector) (reads : script) :
  (length (decapsulated (events_of (read_loop_body self reads))) <= 1)%nat /\
  (length (decapsulated (events_of (read_loop_body self reads))) <= length reads)%nat.
Proof.
  body_cases self reads; split; try lia;
    apply accumulate_rest in Hacc as [_ Hlt];
    specialize (Hlt endswith_nil); lia.
Qed.

(** What an iteration decapsulates is what it has read. *)
Lemma read_loop_body_continue_inv (self self' : UsbModemPyusbConnector)
    (reads rest : script) (tr : list event) :
  read_loop_body self reads = Continue tr self' rest ->
  exists chunks : list bytes,
    reads = map Gives chunks ++ rest /\ decapsulated tr = [concat chunks].
Proof.
  body_cases self reads; intros Heq; try discriminate;
    injection Heq as <- <- <-;
    apply accumulate_framed_inv in Hacc as (_ & chunks & -> & -> & _);
    now exists chunks.
Qed.

Lemma read_loop_body_blocked_inv (self self' : UsbModemPyusbConnector)
    (reads : script) (tr : list event) (waiting : bytes) :
  read_loop_body self reads = Stop tr self' (BlockedInRead waiting) ->
  tr = [] /\ exists chunks : list bytes,
    reads = map Gives chunks /\ waiting = concat chunks.
Proof.
  body_cases self reads; intros Heq; try discriminate.
  injection Heq as <- <- <-. split; [reflexivity|].
  now apply accumulate_awaiting_inv in Hacc.
Qed.

(** A connector that has received its first packet skips nothing, when
    the lenient mode keeps its contract. *)
Lemma read_loop_body_streaming (self : UsbModemPyusbConnector) (reads : script) :
  lenient_never_invalid Mixin ->
  received_first_packet self = true ->
  skipped (events_of (read_loop_body self reads)) = [] /\
  received_first_packet (state_after (read_loop_body self reads)) = true.
Proof.
  intros Hlenient Hself.
  body_cases self reads; try (split; [reflexivity|assumption]);
    try (rewrite Hdec; now split).
  rewrite Hself in Hdec. now apply Hlenient in Hdec.
Qed.

End TraceFacts.

Section LoopFacts.

Context `{Mixin : HdlcMixin}.

(** A property of traces that holds of the empty trace and of the trace of
    every iteration, and that concatenation keeps, holds of every run. *)
Lemma read_loop_fuel_trace (P : list event -> Prop) :
  P [] ->
  (forall self reads, P (events_of (read_loop_body self reads))) ->
  (forall tr1 tr2, P tr1 -> P tr2 -> P (tr1 ++ tr2)) ->
  forall fuel self reads, P (trace (read_loop_fuel fuel self reads)).
Proof.
  intros Hnil Hbody Happ.
  induction fuel as [|fuel IH]; intros self reads; simpl; [assumption|].
  specialize (Hbody self reads).
  destruct (read_loop_body self reads) as [tr self' rest|tr self' how]; simpl in *.
  - apply Happ; [assumption|apply IH].
  - assumption.
Qed.

Lemma read_loop_fuel_count (fuel : nat) :
  forall (self : UsbModemPyusbConnector) (reads : script),
    (length (decapsulated (trace (read_loop_fuel fuel self reads))) <= length reads)%nat.
Proof.
  induction fuel as [|fuel IH]; intros self reads; simpl; [lia|].
  pose proof (read_loop_body_count self reads) as [Hone Hreads].
  destruct (read_loop_body self reads) as [tr self' rest|tr self' how] eqn:Hbody;
    simpl in *; [|assumption].
  apply read_loop_body_rest in Hbody.
  rewrite decapsulated_app, length_app. specialize (IH self' rest). lia.
Qed.

Lemma read_loop_fuel_streaming (fuel : nat) :
  lenient_never_invalid Mixin ->
  forall (self : UsbModemPyusbConnector) (reads : script),
    received_first_packet self = true ->
    skipped (trace (read_loop_fuel fuel self reads)) = [].
Proof.
  intros Hlenient.
  induction fuel as [|fuel IH]; intros self reads Hself; simpl; [reflexivity|].
  pose proof (read_loop_body_streaming self reads Hlenient Hself) as [Hskip Hself'].
  destruct (read_loop_body self reads) as [tr self' rest|tr self' how];
    simpl in *; [|assumption].
  rewrite skipped_app, Hskip. now apply IH.
Qed.

Lemma read_loop_fuel_skipped (fuel : nat) :
  lenient_never_invalid Mixin ->
  forall (self : UsbModemPyusbConnector) (reads : script),
    (length (skipped (trace (read_loop_fuel fuel self reads))) <= 1)%nat.
Proof.
  intros Hlenient.
  induction fuel as [|fuel IH]; intros self reads; simpl; [lia|].
  pose proof (read_loop_body_flag self reads) as Hflag.
  pose proof (skipped_length (events_of (read_loop_body self reads))) as Hskip.
  rewrite <- decapsulate_flags_length in Hskip.
  destruct (read_loop_body self reads) as [tr self' rest|tr self' how];
    simpl in *.
  - rewrite skipped_app, length_app.
    destruct Hflag as [[Hnone ->]|[Hsome ->]].
    + rewrite Hnone in Hskip. specialize (IH self rest). simpl in Hskip. lia.
    + rewrite Hsome in Hskip.
      rewrite (read_loop_fuel_streaming fuel Hlenient) by reflexivity.
      simpl in *. lia.
  - destruct Hflag as [[Hnone _]|[Hsome _]].
    + rewrite Hnone in Hskip. simpl in Hskip. lia.
    + rewrite Hsome in Hskip. simpl in Hskip. lia.
Qed.

Lemma read_loop_fuel_blocked_inv (fuel : nat) :
  forall (self : UsbModemPyusbConnector) (reads : script) (waiting : bytes),
    halted (read_loop_fuel fuel self reads) = Some (BlockedInRead waiting) ->
    exists chunks : list bytes,
      reads = map Gives chunks /\
      concat (decapsulated (trace (read_loop_fuel fuel self reads))) ++ waiting
      = concat chunks.
Proof.
  induction fuel as [|fuel IH]; intros self reads waiting Hblocked;
    simpl in Hblocked |- *; [discriminate|].
  destruct (read_loop_body self reads) as [tr self' rest|tr self' how] eqn:Hbody;
    simpl in Hblocked |- *.
  - apply read_loop_body_continue_inv in Hbody as (chunks1 & -> & Htr).
    apply IH in Hblocked as (chunks2 & -> & Hrest).
    exists (chunks1 ++ chunks2).
    rewrite map_app, decapsulated_app, Htr, !concat_app. simpl.
    rewrite app_nil_r, <- app_assoc, Hrest. now split.
  - injection Hblocked as ->.
    apply read_loop_body_blocked_inv in Hbody as (-> & chunks & -> & ->).
    now exists chunks.
Qed.

End LoopFacts.

(** X3: every buffer that a run of the loop hands to [hdlc_decapsulate]
    ends with the trailer byte and holds at least one byte before it. *)
Theorem decapsulated_buffers_are_frames `{Mixin : HdlcMixin}
    (self : UsbModemPyusbConnector) (reads : script) :
  Forall (fun p : bytes => last p = Some trailer /\ (2 <= length p)%nat)
         (decapsulated (trace (read_loop self reads))).
Proof.
  unfold read_loop.
  apply (read_loop_fuel_trace
           (fun tr => Forall (fun p : bytes => last p = Some trailer /\ (2 <= length p)%nat)
                             (decapsulated tr))).
  - constructor.
  - intros self0 reads0.
    eapply Forall_impl; [apply read_loop_body_decapsulated|].
    intros p [Hend Hne]. rewrite endswith_last in Hend.
    apply bool_decide_eq_true_1 in Hend. split; [assumption|].
    destruct p as [|b p] using rev_ind; [discriminate|].
    rewrite last_snoc in Hend. injection Hend as ->.
    destruct p as [|c p]; [now contradiction Hne|].
    rewrite length_app. simpl. lia.
  - intros tr1 tr2 H1 H2. rewrite decapsulated_app. now apply Forall_app.
Qed.

(** X4: the messages that a run of the loop dispatches are, in order,
    what [hdlc_decapsulate] gave for the buffers of the run: nothing else
    is dispatched, and nothing that was given is left out. *)
Theorem dispatched_is_what_was_given `{Mixin : HdlcMixin}
    (self : UsbModemPyusbConnector) (reads : script) :
  dispatched (trace (read_loop self reads)) = given (trace (read_loop self reads)).
Proof.
  unfold read_loop.
  apply (read_loop_fuel_trace (fun tr => dispatched tr = given tr)).
  - reflexivity.
  - apply read_loop_body_dispatched.
  - intros tr1 tr2 H1 H2. now rewrite dispatched_app, given_app, H1, H2.
Qed.

(** X5: a run of the loop dispatches at most as many messages as it
    decapsulates buffers, and decapsulates at most as many buffers as there
    are reads. *)
Theorem dispatches_bounded_by_reads `{Mixin : HdlcMixin}
    (self : UsbModemPyusbConnector) (reads : script) :
  (length (dispatched (trace (read_loop self reads)))
   <= length (decapsulated (trace (read_loop self reads))))%nat /\
  (length (decapsulated (trace (read_loop self reads))) <= length reads)%nat.
Proof.
  split.
  - assert (Heq : dispatched (trace (read_loop self reads))
                  = given (trace (read_loop self reads))).
    { unfold read_loop.
      apply (read_loop_fuel_trace (fun tr => dispatched tr = given tr)).
      - reflexivity.
      - apply read_loop_body_dispatched.
      - intros tr1 tr2 H1 H2. now rewrite dispatched_app, given_app, H1, H2. }
    rewrite Heq. apply given_length.
  - apply read_loop_fuel_count.
Qed.

(** X6: when [hdlc_decapsulate] keeps the contract of its lenient mode, a
    run of the loop skips at most one buffer on [InvalidFrameError]. *)
Theorem at_most_one_frame_is_skipped `{Mixin : HdlcMixin}
    (self : UsbModemPyusbConnector) (reads : script) :
  lenient_never_invalid Mixin ->
  (length (skipped (trace (read_loop self reads))) <= 1)%nat.
Proof.
  intros Hlenient. now apply read_loop_fuel_skipped.
Qed.

Lemma at_most_one_frame_is_skipped_witness :
  let reads : script := [Gives [125; 126]; Gives [1; 125; 126]; Gives [2; 126]] in
  (length (skipped (H := hdlc_7e) (trace (read_loop (Mixin := hdlc_7e) fresh reads)))
   <= 1)%nat.
Proof.
  intros reads.
  apply (@at_most_one_frame_is_skipped hdlc_7e fresh reads).
  apply FramerFacts.mixin_lenient.
Defined.

(** X8: when [hdlc_decapsulate] keeps the contract of its lenient mode, a
    connector that has already received its first packet skips no buffer at
    all: every buffer it decapsulates is dispatched, or its exception
    leaves the loop. *)
Theorem streaming_skips_nothing `{Mixin : HdlcMixin}
    (self : UsbModemPyusbConnector) (reads : script) :
  lenient_never_invalid Mixin ->
  received_first_packet self = true ->
  skipped (trace (read_loop self reads)) = [].
Proof.
  intros Hlenient Hself. now apply read_loop_fuel_streaming.
Qed.

Lemma streaming_skips_nothing_witness :
  let reads : script := [Gives [125; 126]; Gives [1; 125; 126]; Gives [2; 126]] in
  skipped (H := hdlc_7e)
    (trace (read_loop (Mixin := hdlc_7e) (set_received_first_packet true fresh) reads))
  = [].
Proof.
  intros reads.
  apply (@streaming_skips_nothing hdlc_7e (set_received_first_packet true fresh) reads).
  - apply FramerFacts.mixin_lenient.
  - reflexivity.
Defined.

(** X7: when a run of the loop ends blocked in a read, every read of the
    script returned data, and the buffers decapsulated so far followed by
    the bytes accumulated since are exactly the data read: no byte is lost,
    repeated or reordered before the framing. *)
Theorem no_byte_is_lost `{Mixin : HdlcMixin}
    (self : UsbModemPyusbConnector) (reads : script) (waiting : bytes) :
  halted (read_loop self reads) = Some (BlockedInRead waiting) ->
  exists chunks : list bytes,
    reads = map Gives chunks /\
    concat (decapsulated (trace (read_loop self reads))) ++ waiting = concat chunks.
Proof.
  apply read_loop_fuel_blocked_inv.
Qed.

Lemma no_byte_is_lost_witness :
  exists chunks : list bytes,
    [Gives [1; 65]; Gives [126; 2]; Gives [66; 126]; Gives [3]] = map Gives chunks /\
    concat (decapsulated
              (trace (read_loop (Mixin := hdlc_7e) fresh
                        [Gives [1; 65]; Gives [126; 2]; Gives [66; 126]; Gives [3]])))
      ++ [3]
    = concat chunks.
Proof.
  apply (@no_byte_is_lost hdlc_7e fresh
           [Gives [1; 65]; Gives [126; 2]; Gives [66; 126]; Gives [3]] [3]).
  vm_compute. reflexivity.
Defined.

(** ** Runs on a longer script *)

Section Extension.

Context `{Mixin : HdlcMixin}.

Lemma accumulate_failed_app (pre : script) :
  forall (raw_payload : bytes) (more : script),
    accumulate raw_payload pre = ReadFailed ->
    accumulate raw_payload (pre ++ more) = ReadFailed.
Proof.
  induction pre as [|r pre IH]; intros raw more Hacc;
    rewrite accumulate_eq in Hacc; rewrite accumulate_eq;
    destruct (endswith raw TRAILER_CHAR); try discriminate; simpl.
  destruct r as [[|b data]|e]; try reflexivity. now apply IH.
Qed.

Lemma read_loop_body_stop_app (self self' : UsbModemPyusbConnector)
    (pre more : script) (tr : list event) (how : halt) :
  read_loop_body self pre = Stop tr self' how ->
  (forall waiting, how <> BlockedInRead waiting) ->
  read_loop_body self (pre ++ more) = Stop tr self' how.
Proof.
  unfold read_loop_body. intros Hbody Hhow.
  destruct (accumulate [] pre) as [raw rest| |raw] eqn:Hacc.
  - rewrite (accumulate_framed_app _ _ _ _ more Hacc).
    case_bool_decide; [assumption|].
    destruct (hdlc_decapsulate raw _) as [m|[]]; first [discriminate | assumption].
  - now rewrite (accumulate_failed_app _ _ more Hacc).
  - injection Hbody as <- <- <-. now contradiction (Hhow raw).
Qed.

Lemma read_loop_fuel_stopped_app (fuel : nat) :
  forall (self : UsbModemPyusbConnector) (pre more : script) (how : halt),
    halted (read_loop_fuel fuel self pre) = Some how ->
    (forall waiting, how <> BlockedInRead waiting) ->
    read_loop_fuel fuel self (pre ++ more) = read_loop_fuel fuel self pre.
Proof.
  induction fuel as [|fuel IH]; intros self pre more how Hhalted Hhow;
    simpl in Hhalted |- *; [reflexivity|].
  destruct (read_loop_body self pre) as [tr self' rest|tr self' how'] eqn:Hbody.
  - rewrite (read_loop_body_continue_app _ _ _ _ more _ Hbody).
    simpl in Hhalted. now rewrite (IH _ _ more _ Hhalted Hhow).
  - simpl in Hhalted. injection Hhalted as ->.
    now rewrite (read_loop_body_stop_app _ _ _ more _ _ Hbody Hhow).
Qed.

Lemma read_loop_fuel_prefix (fuel : nat) :
  forall (self : UsbModemPyusbConnector) (pre more : script),
    trace (read_loop_fuel fuel self pre)
    `prefix_of` trace (read_loop_fuel fuel self (pre ++ more)).
Proof.
  induction fuel as [|fuel IH]; intros self pre more; simpl; [reflexivity|].
  destruct (read_loop_body self pre) as [tr self' rest|tr self' how] eqn:Hbody.
  - rewrite (read_loop_body_continue_app _ _ _ _ more _ Hbody). simpl.
    apply prefix_app, IH.
  - destruct how as [arg|e|waiting].
    + rewrite (read_loop_body_stop_app _ _ _ more _ _ Hbody); [reflexivity|].
      intros waiting. discriminate.
    + rewrite (read_loop_body_stop_app _ _ _ more _ _ Hbody); [reflexivity|].
      intros waiting. discriminate.
    + apply read_loop_body_blocked in Hbody as (-> & _). apply prefix_nil.
Qed.

Lemma read_loop_at_longer (self : UsbModemPyusbConnector) (pre more : script) :
  read_loop self pre = read_loop_fuel (S (length (pre ++ more))) self pre.
Proof.
  symmetry. apply read_loop_fuel_enough. rewrite length_app. lia.
Qed.

End Extension.

(** X9: when a run of the loop has ended by an exit or by an exception,
    reads that would come later change nothing: the run on the longer
    script is the same run. *)
Theorem reads_after_the_end_are_not_made `{Mixin : HdlcMixin}
    (self : UsbModemPyusbConnector) (pre more : script) (how : halt) :
  halted (read_loop self pre) = Some how ->
  (forall waiting, how <> BlockedInRead waiting) ->
  read_loop self (pre ++ more) = read_loop self pre.
Proof.
  intros Hhalted Hhow.
  rewrite (read_loop_at_longer self pre more) in Hhalted |- *.
  unfold read_loop at 1.
  now apply read_loop_fuel_stopped_app with how.
Qed.

Lemma reads_after_the_end_are_not_made_witness :
  read_loop (Mixin := hdlc_7e) fresh
    ([Gives [1; 65; 126]; Gives [126]] ++ [Gives [2; 66; 126]])
  = read_loop (Mixin := hdlc_7e) fresh [Gives [1; 65; 126]; Gives [126]].
Proof.
  apply (@reads_after_the_end_are_not_made hdlc_7e fresh
           [Gives [1; 65; 126]; Gives [126]] [Gives [2; 66; 126]] (SystemExit None)).
  - vm_compute. reflexivity.
  - intros waiting. discriminate.
Defined.

(** X10: what the loop has done on the reads made so far stays done: the
    trace of a run is a prefix of the trace of the run on any longer
    script. *)
Theorem trace_grows_with_the_reads `{Mixin : HdlcMixin}
    (self : UsbModemPyusbConnector) (pre more : script) :
  trace (read_loop self pre) `prefix_of` trace (read_loop self (pre ++ more)).
Proof.
  rewrite (read_loop_at_longer self pre more). unfold read_loop.
  apply read_loop_fuel_prefix.
Qed.

(** X11: when [hdlc_decapsulate] raises an exception other than
    [InvalidFrameError], the exception leaves the loop: nothing is
    dispatched for the buffer, [received_first_packet] is set all the same,
    the later reads are not made, and the session ends with the disposal. *)
Theorem other_exception_leaves_the_loop `{Mixin : HdlcMixin}
    (self : UsbModemPyusbConnector) (reads rest : script) (raw_payload : bytes)
    (e : exc) :
  accumulate [] reads = Framed raw_payload rest ->
  raw_payload <> TRAILER_CHAR ->
  hdlc_decapsulate raw_payload (negb (received_first_packet self)) = Throws e ->
  e <> InvalidFrameError ->
  run_session self reads
  = {| trace := [EvDecapsulate raw_payload (negb (received_first_packet self));
                 EvDispose];
       final := set_received_first_packet true self;
       halted := Some (Propagates e) |}.
Proof.
  intros Hacc Hraw Hdec He.
  unfold run_session, run_input. rewrite read_loop_unfold.
  unfold read_loop_body. rewrite Hacc, bool_decide_eq_false_2, Hdec by assumption.
  destruct e; try reflexivity. contradiction.
Qed.

(** X12: more fuel than there are reads always suffices: the run is then
    the run of [read_loop], and it has ended by an exit, by an exception or
    blocked in a read. *)
Theorem fuel_beyond_the_reads_suffices `{Mixin : HdlcMixin}
    (fuel : nat) (self : UsbModemPyusbConnector) (reads : script) :
  (length reads < fuel)%nat ->
  read_loop_fuel fuel self reads = read_loop self reads /\
  halted (read_loop_fuel fuel self reads) <> None.
Proof.
  intros Hfuel. rewrite read_loop_fuel_enough by assumption.
  split; [reflexivity|].
  destruct (read_loop_halts self reads) as [how ->]. discriminate.
Qed.

Lemma fuel_beyond_the_reads_suffices_witness :
  let reads : script := [Gives [1; 65; 126]; Gives [2; 66]] in
  read_loop_fuel (Mixin := hdlc_7e) 7 fresh reads = read_loop (Mixin := hdlc_7e) fresh reads /\
  halted (read_loop_fuel (Mixin := hdlc_7e) 7 fresh reads) <> None.
Proof.
  intros reads.
  apply (@fuel_beyond_the_reads_suffices hdlc_7e 7 fresh reads).
  simpl. lia.
Defined.

Lemma other_exception_leaves_the_loop_witness :
  run_session (Mixin := hdlc_asserting) fresh [Gives [1; 126]; Gives [2; 66; 126]]
  = {| trace := [EvDecapsulate [1; 126] (negb (received_first_packet fresh));
                 EvDispose];
       final := set_received_first_packet true fresh;
       halted := Some (Propagates AssertionError) |}.
Proof.
  apply (@other_exception_leaves_the_loop hdlc_asserting fresh
           [Gives [1; 126]; Gives [2; 66; 126]] [Gives [2; 66; 126]] [1; 126]
           AssertionError).
  - vm_compute. reflexivity.
  - vm_compute. discriminate.
  - vm_compute. reflexivity.
  - discriminate.
Defined.

(** ** Requests, further *)

(** X13: whatever the arguments and whatever pyusb answers, [send_request]
    does not exit, raises no [USBError], leaves the connector as it was, and
    writes at most one buffer, which is the encapsulation of the type byte
    followed by the payload; it writes nothing exactly when the type byte
    is out of range or the endpoint is missing. *)
Theorem send_request_writes_at_most_once `{Mixin : HdlcMixin} `{Usb : Pyusb}
    (self : UsbModemPyusbConnector) (packet_type : Z) (packet_payload : bytes) :
  let r := send_request self packet_type packet_payload in
  r.1.2 = self /\
  (forall arg, r.2 <> Exited arg) /\
  (forall e, r.2 = Raised e -> isinstance_USBError e = false) /\
  written r.1.1
  = (if bool_decide (0 <= packet_type < 256 /\ write_endpoint (dev_intf self) <> None)
     then [hdlc_encapsulate (packet_type :: packet_payload)]
     else []).
Proof.
  unfold send_request.
  case_bool_decide as Hbyte.
  - destruct (write_endpoint (dev_intf self)) as [ep|] eqn:Hep.
    + rewrite bool_decide_eq_true_2 by (split; [assumption|discriminate]).
      destruct (endpoint_write ep _) as [n|e] eqn:Hwrite.
      * simpl. repeat split; intros; discriminate.
      * destruct (isinstance_USBError e) eqn:He; simpl.
        -- repeat split; intros; discriminate.
        -- repeat split; try (intros; discriminate).
           intros e' Heq. now injection Heq as <-.
    + rewrite bool_decide_eq_false_2 by (intros [_ Hne]; now apply Hne).
      simpl. repeat split; try (intros; discriminate).
      intros e' Heq. now injection Heq as <-.
  - rewrite bool_decide_eq_false_2 by (intros [Hb _]; now apply Hbyte).
    simpl. repeat split; try (intros; discriminate).
    intros e' Heq. now injection Heq as <-.
Qed.

(** X14: a packet type outside [range(256)] makes [send_request] raise
    [ValueError] before anything is encapsulated or written, whether or not
    the endpoint is there. *)
Theorem packet_type_out_of_range `{Mixin : HdlcMixin} `{Usb : Pyusb}
    (self : UsbModemPyusbConnector) (packet_type : Z) (packet_payload : bytes) :
  packet_type < 0 \/ 256 <= packet_type ->
  send_request self packet_type packet_payload = ([], self, Raised ValueError).
Proof.
  intros Hout. unfold send_request.
  now rewrite bool_decide_eq_false_2 by lia.
Qed.

Lemma packet_type_out_of_range_witness :
  @send_request hdlc_7e (pyusb_of (Gives false) (Gives 3)) fresh 256 [1]
  = ([], fresh, Raised ValueError).
Proof.
  apply (@packet_type_out_of_range hdlc_7e (pyusb_of (Gives false) (Gives 3)) fresh 256 [1]).
  lia.
Defined.

Lemma send_request_other_exception_witness :
  let usb := pyusb_of (Gives false) (Throws NotImplementedError) in
  @send_request hdlc_7e usb fresh 1 [65]
  = ([EvWrite (@hdlc_encapsulate hdlc_7e [1; 65])], fresh, Raised NotImplementedError).
Proof.
  intros usb.
  apply (@send_request_other_exception hdlc_7e usb fresh 1 [65] 1%nat NotImplementedError).
  - lia.
  - reflexivity.
  - reflexivity.
  - reflexivity.
Defined.

(** ** Construction, further *)

(** X16: when the interface has no device or no interface index, the
    query of line 25 fails on the missing attribute inside the [try], pyusb
    is not asked, and the connector is constructed. *)
Theorem missing_device_is_swallowed `{Usb : Pyusb} (d : PyusbDevInterface) :
  device d = None \/ interface_index d = None ->
  kernel_driver_query d = Throws AttributeError /\
  init d = Returned {| dev_intf := d; received_first_packet := false |}.
Proof.
  intros Hmissing. unfold init.
  assert (Hquery : kernel_driver_query d = Throws AttributeError).
  { unfold kernel_driver_query.
    destruct Hmissing as [-> | ->]; [reflexivity|]. now destruct (device d). }
  now rewrite Hquery.
Qed.

Lemma missing_device_is_swallowed_witness :
  @kernel_driver_query (pyusb_of (Gives true) (Gives 0)) absent_modem
  = Throws AttributeError /\
  @init (pyusb_of (Gives true) (Gives 0)) absent_modem
  = Returned {| dev_intf := absent_modem; received_first_packet := false |}.
Proof.
  apply (@missing_device_is_swallowed (pyusb_of (Gives true) (Gives 0)) absent_modem).
  left. reflexivity.
Defined.

Lemma send_request_writes_at_most_once_witness :
  let usb := pyusb_of (Gives false) (Throws USBError) in
  let r := @send_request hdlc_7e usb fresh 1 [65] in
  r.1.2 = fresh /\
  (forall arg, r.2 <> Exited arg) /\
  (forall e, r.2 = Raised e -> isinstance_USBError e = false) /\
  written r.1.1
  = (if bool_decide (0 <= 1 < 256 /\ write_endpoint (dev_intf fresh) <> None)
     then [@hdlc_encapsulate hdlc_7e [1; 65]]
     else []).
Proof.
  intros usb.
  apply (@send_request_writes_at_most_once hdlc_7e usb fresh 1 [65]).
Defined.

(** ** Input selection, further *)

Section Selection.

Context `{Usb : Pyusb} `{Sys : Host}.

(** For an interface that [main] has resolved and that has no not-found
    reason, the selection logs nothing and goes by the character device. *)
Lemma select_input_resolved (args : Args) (d : PyusbDevInterface) :
  resolves args d ->
  not_found_reason d = None ->
  select_input args = ([], serial_or_pyusb d).
Proof.
  intros Hres Hfound. unfold select_input.
  destruct Hres as [Hdlf Hwsl Hfile Hum | Hdlf Hwsl Hadb Hum
                   | t Hdlf Hwsl Hadb Husb Htype Ht ->].
  - rewrite Hdlf, Hwsl, Hfile, Hum. simpl. now rewrite Hfound.
  - rewrite Hdlf, Hwsl, Hadb, Hum. simpl. now rewrite Hfound.
  - rewrite Hdlf, Hwsl, Hadb, Husb, Htype, Hfound.
    destruct t; [contradiction| | |]; reflexivity.
Qed.

End Selection.

(** X17: when [main] has resolved an interface with no not-found reason
    and no mounted character device, and pyusb reports a kernel driver on
    it, the input selection ends in the exit of the constructor, with its
    message: no input object results and nothing else is logged. *)
Theorem kernel_driver_conflict_ends_main `{Usb : Pyusb} `{Sys : Host}
    (args : Args) (d : PyusbDevInterface) :
  resolves args d ->
  not_found_reason d = None ->
  truthy (chardev_if_mounted d) = false ->
  kernel_driver_query d = Gives true ->
  select_input args = ([], Exited (Some kernel_driver_message)).
Proof.
  intros Hres Hfound Hchardev Hquery.
  rewrite (select_input_resolved args d Hres Hfound).
  unfold serial_or_pyusb, init. now rewrite Hchardev, Hquery.
Qed.

Lemma kernel_driver_conflict_ends_main_witness :
  @select_input (pyusb_of (Gives true) (Gives 0)) (host_of (modem None))
    (args_usb_modem "05c6:9091")
  = ([], Exited (Some kernel_driver_message)).
Proof.
  apply (@kernel_driver_conflict_ends_main (pyusb_of (Gives true) (Gives 0))
           (host_of (modem None)) (args_usb_modem "05c6:9091") (modem None)).
  - apply (@resolves_from_arg (host_of (modem None)) _ _ pyusb_vid_pid);
      try reflexivity. discriminate.
  - reflexivity.
  - reflexivity.
  - reflexivity.
Defined.

(** X18: with a mounted character device, the selection does not depend
    on pyusb: whatever the kernel-driver query would answer, the input is
    the same pyserial connector. *)
Theorem mounted_chardev_needs_no_pyusb (usb1 usb2 : Pyusb) `{Sys : Host}
    (args : Args) (d : PyusbDevInterface) :
  resolves args d ->
  not_found_reason d = None ->
  truthy (chardev_if_mounted d) = true ->
  @select_input usb1 Sys args = @select_input usb2 Sys args /\
  @select_input usb1 Sys args
  = ([], Returned (UsbModemPyserialConnector (chardev_if_mounted d))).
Proof.
  intros Hres Hfound Hchardev.
  rewrite !(select_input_resolved args d Hres Hfound).
  unfold serial_or_pyusb. now rewrite Hchardev.
Qed.

Lemma mounted_chardev_needs_no_pyusb_witness :
  let d := modem (Some "/dev/ttyUSB0"%string) in
  @select_input (pyusb_of (Gives true) (Gives 0)) (host_of d) args_adb
  = @select_input (pyusb_of (Throws USBError) (Gives 0)) (host_of d) args_adb /\
  @select_input (pyusb_of (Gives true) (Gives 0)) (host_of d) args_adb
  = ([], Returned (UsbModemPyserialConnector (chardev_if_mounted d))).
Proof.
  intros d.
  apply (@mounted_chardev_needs_no_pyusb (pyusb_of (Gives true) (Gives 0))
           (pyusb_of (Throws USBError) (Gives 0)) (host_of d) args_adb d).
  - apply (@resolves_adb (host_of d)); reflexivity.
  - reflexivity.
  - reflexivity.
Defined.

(** X19: with [--adb], when the adb connector has found no modem
    interface, or one with a not-found reason, the adb connector itself
    stays the input, and nothing is logged. *)
Theorem adb_without_modem_stays_adb `{Usb : Pyusb} `{Sys : Host} (args : Args) :
  dlf_read args = None ->
  truthy (adb_wsl2 args) = false ->
  adb args = true ->
  (forall d, AdbConnector_usb_modem = Some d -> not_found_reason d <> None) ->
  select_input args = ([], Returned AdbConnector).
Proof.
  intros Hdlf Hwsl Hadb Hmodem. unfold select_input.
  rewrite Hdlf, Hwsl, Hadb. unfold adb_or_modem.
  destruct AdbConnector_usb_modem as [d|]; [|reflexivity].
  specialize (Hmodem d eq_refl). now destruct (not_found_reason d).
Qed.

Lemma adb_without_modem_stays_adb_witness :
  @select_input (pyusb_of (Gives false) (Gives 0)) (host_of absent_modem) args_adb
  = ([], Returned AdbConnector).
Proof.
  apply (@adb_without_modem_stays_adb (pyusb_of (Gives false) (Gives 0))
           (host_of absent_modem) args_adb); try reflexivity.
  intros d Heq. injection Heq as <-. discriminate.
Defined.



(** X21: when every input option is unset or false in Python's sense, as
    with [--usb-modem ''], where the option is set to the empty string, the
    selection falls through every branch and raises [NotImplementedError]:
    nothing is logged and no input object is constructed. *)
Theorem falsy_input_options_raise `{Usb : Pyusb} `{Sys : Host} (args : Args) :
  dlf_read args = None ->
  truthy (adb_wsl2 args) = false ->
  adb args = false ->
  truthy (usb_modem args) = false ->
  json_geo_read args = None ->
  select_input args = ([], Raised NotImplementedError).
Proof.
  intros Hdlf Hwsl Hadb Husb Hjson. unfold select_input.
  now rewrite Hdlf, Hwsl, Hadb, Husb, Hjson.
Qed.

Lemma falsy_input_options_raise_witness :
  @select_input (pyusb_of (Gives false) (Gives 0)) (host_of (modem None))
    args_empty_usb_modem
  = ([], Raised NotImplementedError).
Proof.
  apply (@falsy_input_options_raise (pyusb_of (Gives false) (Gives 0))
           (host_of (modem None)) args_empty_usb_modem); reflexivity.
Defined.

(** ** The modules of [main] *)

Section ModuleFacts.

Context `{Py : Builtins}.

(** [parse_modules_args] only appends: the modules already registered stay
    in front, in their order. *)
Lemma parse_modules_args_prefix (modules result : list module) (args : ModuleArgs) :
  parse_modules_args modules args = Returned result ->
  modules `prefix_of` result.
Proof.
  unfold parse_modules_args.
  destruct (truthy (memory_dump args));
    [destruct (int16 (start args)); [destruct (int16 (stop args))|]|];
    try discriminate;
    intros Heq; injection Heq as <-;
    destruct (pcap_dump args), (wireshark_live args), (json_geo_dump args),
      (decoded_sibs_dump args), (info args), (dlf_dump args);
    unfold add_module; repeat apply prefix_app_r; reflexivity.
Qed.

Lemma parse_modules_args_no_exit (modules : list module) (args : ModuleArgs)
    (arg : option string) :
  parse_modules_args modules args <> Exited arg.
Proof.
  unfold parse_modules_args.
  destruct (truthy (memory_dump args));
    [destruct (int16 (start args)); [destruct (int16 (stop args))|]|];
    discriminate.
Qed.

End ModuleFacts.

(** X22: when the registration of the modules succeeds, at least one
    module is registered, nothing has been logged, and the modules that
    were registered before are still in front, in their order. *)
Theorem registered_modules_are_not_empty `{Py : Builtins}
    (modules result : list module) (args : ModuleArgs) (tr : list event) :
  register_modules modules args = (tr, Returned result) ->
  result <> [] /\ tr = [] /\ modules `prefix_of` result.
Proof.
  unfold register_modules.
  destruct (parse_modules_args modules args) as [m1| |] eqn:Hparse; try discriminate.
  apply parse_modules_args_prefix in Hparse.
  destruct (cli args), (efs_shell args), m1 as [|x m1]; simpl;
    intros Heq; try discriminate; injection Heq as <- <-;
    (split; [discriminate|split; [reflexivity|]]);
    unfold add_module; try assumption;
    apply prefix_nil_inv in Hparse; subst; apply prefix_nil.
Qed.

Lemma registered_modules_are_not_empty_witness :
  [InfoRetriever] <> [] /\ @nil event = [] /\ [] `prefix_of` [InfoRetriever].
Proof.
  apply (@registered_modules_are_not_empty (builtins_of (Some 0) (Some 4294967295))
           [] [InfoRetriever] (module_args true false false None) []).
  reflexivity.
Defined.

(** X23: when the registration succeeds with [--cli], the command prompt
    is the only module: no module was registered before, no module option
    and no [--efs-shell] was given. *)
Theorem cli_is_the_only_module `{Py : Builtins}
    (modules result : list module) (args : ModuleArgs) (tr : list event) :
  register_modules modules args = (tr, Returned result) ->
  cli args = true ->
  result = [CommandLineInterface] /\
  modules = [] /\
  parse_modules_args [] args = Returned [] /\
  efs_shell args = false.
Proof.
  unfold register_modules. intros Hreg Hcli.
  destruct (parse_modules_args modules args) as [m1| |] eqn:Hparse; try discriminate.
  rewrite Hcli in Hreg.
  destruct m1 as [|x m1]; [|discriminate].
  destruct (efs_shell args); [discriminate|]. simpl in Hreg.
  injection Hreg as <- <-.
  pose proof (parse_modules_args_prefix _ _ _ Hparse) as Hprefix.
  apply prefix_nil_inv in Hprefix. subst modules. now repeat split.
Qed.

Lemma cli_is_the_only_module_witness :
  [CommandLineInterface] = [CommandLineInterface] /\
  @nil module = [] /\
  @parse_modules_args (builtins_of (Some 0) (Some 4294967295)) []
    (module_args false true false None) = Returned [] /\
  efs_shell (module_args false true false None) = false.
Proof.
  apply (@cli_is_the_only_module (builtins_of (Some 0) (Some 4294967295))
           [] [CommandLineInterface] (module_args false true false None) []).
  - reflexivity.
  - reflexivity.
Defined.

(** X24: when the registration succeeds with [--efs-shell], the EFS shell
    is the only module: no module was registered before, and no module
    option and no [--cli] was given. *)
Theorem efs_shell_is_the_only_module `{Py : Builtins}
    (modules result : list module) (args : ModuleArgs) (tr : list event) :
  register_modules modules args = (tr, Returned result) ->
  efs_shell args = true ->
  result = [EfsShell] /\
  modules = [] /\
  parse_modules_args [] args = Returned [] /\
  cli args = false.
Proof.
  unfold register_modules. intros Hreg Hefs.
  destruct (parse_modules_args modules args) as [m1| |] eqn:Hparse; try discriminate.
  rewrite Hefs in Hreg.
  destruct (cli args).
  { rewrite orb_true_r in Hreg. discriminate. }
  destruct m1 as [|x m1]; [|discriminate]. simpl in Hreg.
  injection Hreg as <- <-.
  pose proof (parse_modules_args_prefix _ _ _ Hparse) as Hprefix.
  apply prefix_nil_inv in Hprefix. subst modules. now repeat split.
Qed.

Lemma efs_shell_is_the_only_module_witness :
  [EfsShell] = [EfsShell] /\
  @nil module = [] /\
  @parse_modules_args (builtins_of (Some 0) (Some 4294967295)) []
    (module_args false false true None) = Returned [] /\
  cli (module_args false false true None) = false.
Proof.
  apply (@efs_shell_is_the_only_module (builtins_of (Some 0) (Some 4294967295))
           [] [EfsShell] (module_args false false true None) []).
  - reflexivity.
  - reflexivity.
Defined.



(** X26: when the registration exits, it has logged an error as its last
    message, and the exit carries no argument: the command prompt beside a
    module or the EFS shell, the EFS shell beside a module, or no module at
    all. *)
Theorem registration_exits_with_an_error `{Py : Builtins}
    (modules : list module) (args : ModuleArgs) (tr : list event)
    (arg : option string) :
  register_modules modules args = (tr, Exited arg) ->
  arg = None /\
  (tr = [EvError cli_message] /\ cli args = true \/
   tr = [EvError efs_shell_message] /\ efs_shell args = true /\ cli args = false \/
   tr = [EvPrint usage; EvError no_module_message] /\
   cli args = false /\ efs_shell args = false /\
   parse_modules_args modules args = Returned []).
Proof.
  unfold register_modules.
  destruct (parse_modules_args modules args) as [m1|e'|arg'] eqn:Hparse;
    try discriminate.
  - destruct (cli args), (efs_shell args), m1 as [|x m1]; simpl;
      intros Heq; try discriminate; injection Heq as <- <-;
      (split; [reflexivity|]); auto 10.
  - now apply parse_modules_args_no_exit in Hparse.
Qed.

Lemma registration_exits_with_an_error_witness :
  let py := builtins_of (Some 0) (Some 4294967295) in
  let args := module_args true true false None in
  @None string = None /\
  ([EvError cli_message] = [EvError cli_message] /\ cli args = true \/
   [EvError cli_message] = [EvError efs_shell_message] /\
   efs_shell args = true /\ cli args = false \/
   [EvError cli_message] = [EvPrint (@usage py); EvError no_module_message] /\
   cli args = false /\ efs_shell args = false /\
   @parse_modules_args py [] args = Returned []).
Proof.
  intros py args.
  apply (@registration_exits_with_an_error py [] args [EvError cli_message] None).
  reflexivity.
Defined.
